(** * Alohamora (blaze): preprocessing of recorded page loads

    A shallow embedding of [blaze/command/preprocess.py] and
    [blaze/preprocess/record.py], and the properties of the stable-set
    discoverer, the cache annotator and the link crawler that follow from
    the code. *)

From Stdlib Require Import ZArith Ascii String List Permutation Lia.
From stdpp Require Import gmap strings list fin_maps sorting pretty.

Open Scope string_scope.
Open Scope list_scope.
Open Scope Z_scope.

(** ** Python runtime: exceptions, logging, the world *)

(** The exception classes the two modules can meet.  [RequestException]
    stands for [requests.exceptions.RequestException] and its subclasses
    ([HTTPError], [ConnectionError], ...). *)
Inductive PyExn :=
| RequestException (detail : string)
| ParseError (detail : string)
| AttributeError (detail : string)
| IndexError
| RecursionError
| OtherException (name : string).

Inductive Level := DEBUG | INFO | WARN.

Inductive LogValue :=
| VInt (z : Z)
| VStr (s : string)
| VInts (zs : list Z).

(** One record of [blaze.logger]: namespace, level, message and the keyword
    arguments (the logger's context first). *)
Record LogRecord := mkLog {
  namespace : string;
  level : Level;
  message : string;
  fields : list (string * LogValue)
}.

(** What the code can observe and change outside its own variables: the log,
    standard output, the urls fetched with [requests.get] and the number of
    page loads captured so far. *)
Record World := mkWorld {
  log : list LogRecord;
  stdout : list string;
  fetched : list string;
  captures : nat
}.

Inductive Result (A : Type) :=
| Ok (a : A)
| Raise (e : PyExn).
Arguments Ok {A} a.
Arguments Raise {A} e.

(** Statements and expressions with effects: a state and exception monad. *)
Definition M (A : Type) : Type := World -> Result A * World.

Definition ret {A} (a : A) : M A := fun w => (Ok a, w).

Definition raise {A} (e : PyExn) : M A := fun w => (Raise e, w).

Definition bind {A B} (c : M A) (k : A -> M B) : M B :=
  fun w =>
    match c w with
    | (Ok a, w') => k a w'
    | (Raise e, w') => (Raise e, w')
    end.

Declare Scope py_scope.
Delimit Scope py_scope with py.
Notation "x <- c ;; k" := (bind c (fun x => k))
  (at level 100, c at next level, right associativity) : py_scope.
Notation "c ;; k" := (bind c (fun _ => k))
  (at level 100, right associativity) : py_scope.
Open Scope py_scope.

(** [try: body except <classes>: handler]; [handles e] tells whether the
    clause catches [e]. *)
Definition try_except {A} (body : M A) (handles : PyExn -> bool)
    (handler : PyExn -> M A) : M A :=
  fun w =>
    match body w with
    | (Ok a, w') => (Ok a, w')
    | (Raise e, w') => if handles e then handler e w' else (Raise e, w')
    end.

(** An expression statement: the value is computed and dropped. *)
Definition expr_stmt {A} (value : A) : M unit := ret tt.

(** [for x in l: body], with the variables the body assigns threaded as [s]. *)
Fixpoint for_fold {A St} (l : list A) (s : St) (body : St -> A -> M St)
    : M St :=
  match l with
  | [] => ret s
  | x :: l' => s' <- body s x ;; for_fold l' s' body
  end.

Definition for_each {A} (l : list A) (body : A -> M unit) : M unit :=
  for_fold l tt (fun _ x => body x).

Definition emit (ns : string) (lvl : Level) (msg : string)
    (kw : list (string * LogValue)) : M unit :=
  fun w =>
    (Ok tt,
     {| log := log w ++ [mkLog ns lvl msg kw];
        stdout := stdout w; fetched := fetched w; captures := captures w |}).

Definition print (line : string) : M unit :=
  fun w =>
    (Ok tt,
     {| log := log w; stdout := stdout w ++ [line];
        fetched := fetched w; captures := captures w |}).

(** ** blaze.config.environment, blaze.mahimahi.server.filestore, HAR *)

Inductive ResourceType :=
| DOCUMENT | STYLESHEET | SCRIPT | IMAGE | FONT | OTHER.

(** Modelled from the spec: the [Resource] named tuple of
    [blaze/config/environment.py], which is not among the sources.  Its
    fields are those of the data model; [_replace] is the named-tuple method,
    which builds a new tuple and leaves the receiver as it is; two resources
    are equal (and hash alike) exactly when their urls are equal. *)
Module Resource.
Record t := mk {
  url : string;
  type : ResourceType;
  size : Z;
  order : Z;
  cache_time : Z;
  critical : bool
}.

Definition _replace_cache_time (r : t) (v : Z) : t :=
  {| url := url r; type := type r; size := size r; order := order r;
     cache_time := v; critical := critical r |}.

Definition eqb (a b : t) : bool := String.eqb (url a) (url b).
End Resource.

(** Modelled from the spec: a push group is its ordered resources and the
    [trainable] mark. *)
Module PushGroup.
Record t := mk {
  resources : list Resource.t;
  trainable : bool
}.
End PushGroup.

(** A cacheable file of the record directory, as [FileStore] lists it. *)
Module File.
Record t := mk {
  host : string;
  uri : string;
  cache_time : Z
}.
End File.

Module FileStore.
Record t := mk {
  cacheable_files : list File.t
}.
End FileStore.

(** The part of a HAR entry the code reads: [h.request.url] and
    [h.critical]; [_replace] is again the named-tuple method. *)
Module HarEntry.
Record request_t := mkRequest {
  url : string;
  method : string
}.

Record t := mk {
  request : request_t;
  started_date_time : string;
  status : Z;
  body_size : Z;
  mime_type : string;
  critical : bool
}.

Definition _replace_critical (h : t) (v : bool) : t :=
  {| request := request h; started_date_time := started_date_time h;
     status := status h; body_size := body_size h;
     mime_type := mime_type h; critical := v |}.
End HarEntry.

Module Har.
Record log_t := mkLogT {
  entries : list HarEntry.t
}.

Record t := mk {
  log : log_t
}.
End Har.

(** ** blaze/command/preprocess.py *)

(** [{key(f): value(f) for f in fs}]: a later file replaces an earlier one
    with the same key. *)
Definition dict_comp {A} (key : A -> string) (value : A -> Z) (fs : list A)
    : gmap string Z :=
  fold_left (fun d f => <[key f := value f]> d) fs ∅.

(** [{**a, **b}]: the entries of [b] win. *)
Definition dict_unpack2 (a b : gmap string Z) : gmap string Z := b ∪ a.

(** [d.get(k, dflt)] *)
Definition dict_get (d : gmap string Z) (k : string) (dflt : Z) : Z :=
  default dflt (d !! k).

Definition cache_times_of (filestore : FileStore.t) : gmap string Z :=
  dict_unpack2
    (dict_comp (fun f => "http://" +:+ File.host f +:+ File.uri f)
               File.cache_time (FileStore.cacheable_files filestore))
    (dict_comp (fun f => "https://" +:+ File.host f +:+ File.uri f)
               File.cache_time (FileStore.cacheable_files filestore)).

Section Preprocess.
(** [FileStore(record_dir)]: the files of a record directory. *)
Variable FileStore_open : string -> FileStore.t.
(** [Url.parse(website).domain] *)
Variable Url_domain : string -> string.
(** [har_entries_to_resources], which lives in [blaze/preprocess/har.py];
    record.py hands it [har.log.entries], this file the HAR itself, taken
    here as its entries. *)
Variable har_entries_to_resources : list HarEntry.t -> list Resource.t.
(** [capture_har_in_replay_server(website, config, client_env,
    extract_critical_requests)]: what the [n]-th capture of the process
    yields, an exception or a HAR. *)
Variable replay_capture : nat -> string -> bool -> PyExn + Har.t.

Definition capture_har_in_replay_server (website : string)
    (extract_critical_requests : bool) : M Har.t :=
  fun w =>
    let w' := {| log := log w; stdout := stdout w; fetched := fetched w;
                 captures := S (captures w) |} in
    match replay_capture (captures w) website extract_critical_requests with
    | inl e => (Raise e, w')
    | inr har => (Ok har, w')
    end.

(** Lines 55-56 of [preprocess]: [args.train_domain_globs or [...]];
    argparse leaves [None] when the option is absent. *)
Definition preprocess_train_domain_globs (website : string)
    (args_train_domain_globs : option (list string)) : list string :=
  let domain := Url_domain website in
  match args_train_domain_globs with
  | Some (g :: gs) => g :: gs
  | Some [] | None => ["*" +:+ domain +:+ "*"]
  end.

Definition get_har_resources (website : string)
    (extract_critical_requests : bool) : M (list Resource.t) :=
  har <- capture_har_in_replay_server website false ;;
  if negb extract_critical_requests then
    ret (har_entries_to_resources (Har.entries (Har.log har)))
  else
    har2 <- capture_har_in_replay_server website true ;;
    let critical_requests : gset string :=
      list_to_set
        (map (fun h => HarEntry.url (HarEntry.request h))
             (filter (fun h => HarEntry.critical h = true)
                     (Har.entries (Har.log har2)))) in
    for_each (Har.entries (Har.log har)) (fun res =>
      if bool_decide (HarEntry.url (HarEntry.request res) ∈ critical_requests)
      then
        print "doing some critical work" ;;
        expr_stmt (HarEntry._replace_critical res true)
      else ret tt) ;;
    ret (har_entries_to_resources (Har.entries (Har.log har))).

Definition annotate_cacheable_objects (record_dir : string)
    (push_groups : list PushGroup.t) : M (list PushGroup.t) :=
  let filestore := FileStore_open record_dir in
  let cache_times := cache_times_of filestore in
  for_each push_groups (fun group =>
    for_each (PushGroup.resources group) (fun res =>
      let cache_time := dict_get cache_times (Resource.url res) 0 in
      if 0 <? cache_time then
        expr_stmt (Resource._replace_cache_time res cache_time)
      else ret tt)) ;;
  ret push_groups.
End Preprocess.

(** ** Python built-ins used by record.py: set and list.sort *)

(** A set of resources is kept as the list of its elements in iteration
    order.  CPython iterates a set in the order of its hash table, which is
    fixed by the hash values (for [str], salted anew in every interpreter
    process) and by the sequence of insertions; the language promises only
    that every element comes exactly once.  [set_iter ins] is the iteration
    order of a set built by inserting the distinct elements [ins] in turn. *)
Class SetOrder := {
  set_iter : list Resource.t -> list Resource.t;
  set_iter_perm : forall l, Permutation (set_iter l) l
}.

(** [r in s], by [__eq__]. *)
Definition set_contains (s : list Resource.t) (r : Resource.t) : bool :=
  existsb (Resource.eqb r) s.

(** [s.add(r)] on the insertion sequence: an element equal to one already
    present is not stored again. *)
Definition set_add (acc : list Resource.t) (r : Resource.t)
    : list Resource.t :=
  if set_contains acc r then acc else acc ++ [r].

(** The elements that adding [l] one by one puts into an empty table. *)
Definition set_insert_all (l : list Resource.t) : list Resource.t :=
  fold_left set_add l [].

(** [set(l)] *)
Definition set_new `{SetOrder} (l : list Resource.t) : list Resource.t :=
  set_iter (set_insert_all l).

(** [set_intersection] of setobject.c: the smaller operand is iterated and
    the keys found in the other one are added to a fresh set. *)
Definition set_intersection `{SetOrder} (so other : list Resource.t)
    : list Resource.t :=
  let '(so, other) :=
    if (length so <? length other)%nat then (other, so) else (so, other) in
  set_new (filter (fun key => set_contains so key = true) other).

(** [set.intersection(so, *args)]: a copy of [so] when [args] is empty. *)
Definition set_intersection_multi `{SetOrder} (so : list Resource.t)
    (args : list (list Resource.t)) : list Resource.t :=
  match args with
  | [] => set_new so
  | _ => fold_left set_intersection args so
  end.

(** [list.sort] of listobject.c on a list of fewer than 64 elements
    ([merge_compute_minrun] returns the length, so the whole list is one
    run): [count_run] finds the leading run, a strictly descending run is
    reversed, and [binarysort] inserts the remaining elements one by one.
    [lt] is the only comparison the sort makes. *)
Section ListSortShort.
Context {A : Type} (lt : A -> A -> bool).

Fixpoint run_descending (prev : A) (l : list A) : nat :=
  match l with
  | x :: l' => if lt x prev then S (run_descending x l') else O
  | [] => O
  end.

Fixpoint run_ascending (prev : A) (l : list A) : nat :=
  match l with
  | x :: l' => if lt x prev then O else S (run_ascending x l')
  | [] => O
  end.

(** The length of the leading run and whether it is descending. *)
Definition count_run (l : list A) : nat * bool :=
  match l with
  | [] => (O, false)
  | [_] => (1%nat, false)
  | x :: y :: l' =>
      if lt y x then (S (S (run_descending y l')), true)
      else (S (S (run_ascending y l')), false)
  end.

(** The loop [do { p = l + ((r - l) >> 1); ... } while (l < r)]. *)
Fixpoint binary_search (fuel : nat) (sorted : list A) (pivot : A)
    (l r : nat) : nat :=
  match fuel with
  | O => l
  | S fuel' =>
      if (l <? r)%nat then
        let p := (l + (r - l) / 2)%nat in
        match sorted !! p with
        | Some x =>
            if lt pivot x then binary_search fuel' sorted pivot l p
            else binary_search fuel' sorted pivot (S p) r
        | None => l
        end
      else l
  end.

Definition binary_insert (sorted : list A) (pivot : A) : list A :=
  let l := binary_search (length sorted) sorted pivot O (length sorted) in
  take l sorted ++ pivot :: drop l sorted.

Definition binarysort (run rest : list A) : list A :=
  fold_left binary_insert rest run.

Definition listsort_short (l : list A) : list A :=
  match l with
  | [] | [_] => l
  | _ =>
      let '(n, descending) := count_run l in
      let run := if descending then rev (take n l) else take n l in
      binarysort run (drop n l)
  end.
End ListSortShort.

(** [list.sort(key=functools.cmp_to_key(cmp))]: the result is a permutation
    of the list, whatever the comparison answers, and on fewer than 64
    elements it is the insertion sort above.  The key objects compare by
    [K.__lt__], which is [cmp(a, b) < 0]. *)
Class ListSort := {
  list_sort : (Resource.t -> Resource.t -> bool) -> list Resource.t
              -> list Resource.t;
  list_sort_perm : forall lt l, Permutation (list_sort lt l) l;
  list_sort_short : forall lt l,
    (length l < 64)%nat -> list_sort lt l = listsort_short lt l
}.

Definition cmp_to_key_lt (cmp : Resource.t -> Resource.t -> Z)
    (a b : Resource.t) : bool :=
  cmp a b <? 0.

(** ** blaze/preprocess/record.py: find_url_stable_set *)

Definition STABLE_SET_NUM_RUNS : nat := 10.

(** [collections.defaultdict(lambda: collections.defaultdict(int))]: an
    absent key reads as the default. *)
Definition pos_get (pos_dict : gmap string (gmap string Z)) (a b : string)
    : Z :=
  default 0 (default ∅ (pos_dict !! a) !! b).

(** [pos_dict[a][b] += 1] *)
Definition pos_incr (pos_dict : gmap string (gmap string Z)) (a b : string)
    : gmap string (gmap string Z) :=
  <[a := <[b := pos_get pos_dict a b + 1]> (default ∅ (pos_dict !! a))]>
    pos_dict.

(** [l[i]] *)
Definition getitem {A} (l : list A) (i : nat) : M A :=
  match l !! i with
  | Some x => ret x
  | None => raise IndexError
  end.

(** Lines 61-63: the two loops over [range(len(resource_list))] and
    [range(i + 1, len(resource_list))]. *)
Definition count_positions (resource_list : list Resource.t)
    (pos_dict : gmap string (gmap string Z))
    : M (gmap string (gmap string Z)) :=
  for_fold (seq 0 (length resource_list)) pos_dict (fun pos_dict i =>
    for_fold (seq (i + 1) (length resource_list - (i + 1))) pos_dict
      (fun pos_dict j =>
         ri <- getitem resource_list i ;;
         rj <- getitem resource_list j ;;
         ret (pos_incr pos_dict (Resource.url ri) (Resource.url rj)))).

(** The comparison passed to [functools.cmp_to_key] on line 68. *)
Definition stable_set_cmp (pos_dict : gmap string (gmap string Z))
    (resource_lists : list (list Resource.t)) (a b : Resource.t) : Z :=
  - pos_get pos_dict (Resource.url a) (Resource.url b)
  + Z.of_nat (length resource_lists) / 2.

Section StableSet.
Context {set_order : SetOrder} {sorter : ListSort}.
Variable har_entries_to_resources : list HarEntry.t -> list Resource.t.
(** [capture_har(url, config)]: what the [n]-th capture of the process
    yields, an exception or a HAR. *)
Variable chrome_capture : nat -> string -> PyExn + Har.t.

Definition capture_har (url : string) : M Har.t :=
  fun w =>
    let w' := {| log := log w; stdout := stdout w; fetched := fetched w;
                 captures := S (captures w) |} in
    match chrome_capture (captures w) url with
    | inl e => (Raise e, w')
    | inr har => (Ok har, w')
    end.

(** The body of the loop over [range(STABLE_SET_NUM_RUNS)], lines 53-64;
    [continue] ends the iteration with the variables as they are. *)
Definition capture_run (url : string)
    (vars : list (list Resource.t) * gmap string (gmap string Z)) (n : nat)
    : M (list (list Resource.t) * gmap string (gmap string Z)) :=
  let '(resource_lists, pos_dict) := vars in
  emit "find_url_stable_set" DEBUG "capturing HAR..."
       [("run", VInt (Z.of_nat n + 1)); ("url", VStr url)] ;;
  har <- capture_har url ;;
  let resource_list := har_entries_to_resources (Har.entries (Har.log har)) in
  match resource_list with
  | [] =>
      emit "find_url_stable_set" WARN "no response received"
           [("run", VInt (Z.of_nat n + 1))] ;;
      ret (resource_lists, pos_dict)
  | _ :: _ =>
      emit "find_url_stable_set" DEBUG "received resources"
           [("total", VInt (Z.of_nat (length resource_list)))] ;;
      pos_dict' <- count_positions resource_list pos_dict ;;
      ret (resource_lists ++ [set_new resource_list], pos_dict')
  end.

Definition capture_runs (url : string)
    : M (list (list Resource.t) * gmap string (gmap string Z)) :=
  for_fold (seq 0 STABLE_SET_NUM_RUNS) ([], ∅) (capture_run url).

(** Line 67: the intersection of all the sets of [resource_lists] as a
    list, or the empty list when [resource_lists] is empty. *)
Definition common_resources (resource_lists : list (list Resource.t))
    : list Resource.t :=
  match resource_lists with
  | [] => []
  | so :: args => set_intersection_multi so args
  end.

Definition find_url_stable_set (url : string) : M (list Resource.t) :=
  vars <- capture_runs url ;;
  let '(resource_lists, pos_dict) := vars in
  emit "find_url_stable_set" DEBUG "resource list lengths"
       [("resource_lens",
         VInts (map (fun s => Z.of_nat (length s)) resource_lists))] ;;
  let common_res := common_resources resource_lists in
  ret (list_sort (cmp_to_key_lt (stable_set_cmp pos_dict resource_lists))
                 common_res).
End StableSet.

(** ** blaze/preprocess/record.py: get_page_links *)

(** An element of [xml.etree.ElementTree]: tag, attribute dictionary and
    children. *)
#[warnings="-register-all"]
Inductive Element :=
| mkElement (tag : string) (attrib : gmap string string)
            (children : list Element).

Definition Element_tag (e : Element) : string :=
  match e with mkElement tag _ _ => tag end.

Definition Element_children (e : Element) : list Element :=
  match e with mkElement _ _ children => children end.

(** [e.get(key)]: [None] when the attribute is absent. *)
Definition Element_get (e : Element) (key : string) : option string :=
  match e with mkElement _ attrib _ => attrib !! key end.

(** [e.iter()]: the element and all its descendants, in document order. *)
Fixpoint Element_iter (e : Element) : list Element :=
  match e with
  | mkElement _ _ children => e :: List.flat_map Element_iter children
  end.

(** [root.findall(".//a")]: the [a] elements on all levels beneath [root]. *)
Definition findall_a (root : Element) : list Element :=
  filter (fun e => Element_tag e = "a")
         (List.flat_map Element_iter (Element_children root)).

Record Response := mkResponse {
  status_code : Z;
  text : string
}.

(** The statuses for which [raise_for_status] raises. *)
Definition http_error (page : Response) : Prop :=
  400 <= status_code page < 600.

(** [Response.raise_for_status]: an [HTTPError] for a 4xx or 5xx status. *)
Definition raise_for_status (page : Response) : M unit :=
  if (400 <=? status_code page) && (status_code page <? 600)
  then raise (RequestException "HTTPError")
  else ret tt.

Definition is_RequestException (e : PyExn) : bool :=
  match e with RequestException _ => true | _ => false end.

Definition is_ParseError (e : PyExn) : bool :=
  match e with ParseError _ => true | _ => false end.

Definition repr (e : PyExn) : string :=
  match e with
  | RequestException d => "RequestException(" +:+ d +:+ ")"
  | ParseError d => "ParseError(" +:+ d +:+ ")"
  | AttributeError d => "AttributeError(" +:+ d +:+ ")"
  | IndexError => "IndexError()"
  | RecursionError => "RecursionError()"
  | OtherException n => n +:+ "()"
  end.

(** Modelled from the spec: [ordered_uniq] of [blaze/util/seq.py], which is
    not among the sources; the ordered-unique sequence keeps the first
    occurrence of every link. *)
Definition ordered_uniq (links : list string) : list string :=
  fold_left (fun acc x => if bool_decide (x ∈ acc) then acc else acc ++ [x])
            links [].

Section PageLinks.
(** [requests.get(url)] as the [n]-th request of the process: an exception
    or a response. *)
Variable http_get : nat -> string -> PyExn + Response.
(** [ElementTree.fromstring]: [None] stands for [ParseError]. *)
Variable ElementTree_fromstring : string -> option Element.
(** [Url.parse(url).domain] *)
Variable Url_domain : string -> string.

Definition requests_get (url : string) : M Response :=
  fun w =>
    let w' := {| log := log w; stdout := stdout w;
                 fetched := fetched w ++ [url]; captures := captures w |} in
    match http_get (length (fetched w)) url with
    | inl e => (Raise e, w')
    | inr page => (Ok page, w')
    end.

Definition fromstring (page_text : string) : M Element :=
  match ElementTree_fromstring page_text with
  | Some root => ret root
  | None => raise (ParseError "not well-formed")
  end.

(** Lines 81-88; [None] is the [return []] of the handler. *)
Definition fetch_page (ctx : list (string * LogValue)) (url : string)
    : M (option string) :=
  try_except
    (emit "get_page_links" INFO "fetching page" (ctx ++ [("url", VStr url)]) ;;
     page <- requests_get url ;;
     raise_for_status page ;;
     ret (Some (text page)))
    is_RequestException
    (fun err =>
       emit "get_page_links" WARN "failed to fetch page"
            (ctx ++ [("error", VStr (repr err))]) ;;
       ret None).

(** Lines 90-95; [None] is the [return []] of the handler. *)
Definition parse_page (ctx : list (string * LogValue)) (page_text : string)
    : M (option Element) :=
  try_except
    (emit "get_page_links" DEBUG "parsing http response"
          (ctx ++ [("length", VInt (Z.of_nat (String.length page_text)))]) ;;
     root <- fromstring page_text ;;
     ret (Some root))
    is_ParseError
    (fun err =>
       emit "get_page_links" WARN "failed to parse response"
            (ctx ++ [("error", VStr (repr err))]) ;;
       ret None).

(** The body of the loop of lines 102-114.  [recurse] is the recursive
    call.  The generator given to [any] calls [link_url.startswith] for the
    first prefix of the two-element set at once, and [None] has no such
    attribute. *)
Definition visit_link (recurse : string -> Z -> M (list string))
    (ctx : list (string * LogValue)) (domain : string) (max_depth : Z)
    (links : list string) (link : Element) : M (list string) :=
  match Element_get link "href" with
  | None =>
      raise (AttributeError
               "'NoneType' object has no attribute 'startswith'")
  | Some link_url =>
      if negb (existsb (fun prefix => String.prefix prefix link_url)
                       ["http"; "/"])
      then
        emit "get_page_links" DEBUG "ignoring found link (bad prefix)"
             (ctx ++ [("link", VStr link_url)]) ;;
        ret links
      else
        let link_domain := Url_domain link_url in
        if negb (String.eqb link_domain domain) then
          emit "get_page_links" DEBUG "ignoring found link (bad domain)"
               (ctx ++ [("link", VStr link_url)]) ;;
          ret links
        else
          let links := links ++ [link_url] in
          found <- recurse link_url (max_depth - 1) ;;
          ret (links ++ found)
  end.

(** [frames] is the number of stack frames the interpreter still grants:
    a call with none left raises [RecursionError]. *)
Fixpoint get_page_links (frames : nat) (url : string) (max_depth : Z)
    {struct frames} : M (list string) :=
  match frames with
  | O => raise RecursionError
  | S frames' =>
      if max_depth =? 0 then ret []
      else
        let ctx := [("depth_left", VInt max_depth)] in
        fetched_text <- fetch_page ctx url ;;
        match fetched_text with
        | None => ret []
        | Some page_text =>
            parsed <- parse_page ctx page_text ;;
            match parsed with
            | None => ret []
            | Some root =>
                let parsed_links := findall_a root in
                emit "get_page_links" INFO "found links"
                     (ctx ++ [("url", VStr url);
                              ("n_links",
                               VInt (Z.of_nat (length parsed_links)))]) ;;
                let domain := Url_domain url in
                links <- for_fold parsed_links []
                           (visit_link (get_page_links frames') ctx domain
                                       max_depth) ;;
                ret (ordered_uniq links)
            end
        end
  end.
End PageLinks.

(** ** Reference notions for the stable set *)

Definition urls (l : list Resource.t) : list string := Resource.url <$> l.

(** How many times a resource with url [a] stands before a resource with
    url [b] in one run. *)
Fixpoint precedence_count (a b : string) (run : list Resource.t) : Z :=
  match run with
  | [] => 0
  | x :: rest =>
      (if String.eqb (Resource.url x) a
       then Z.of_nat (length (filter (fun y => Resource.url y = b) rest))
       else 0)
      + precedence_count a b rest
  end.

(** The same over all the given runs. *)
Definition votes (runs : list (list Resource.t)) (a b : string) : Z :=
  fold_right (fun run acc => precedence_count a b run + acc) 0 runs.

(** The counting loops of lines 61-63 without indices: every element is
    paired with each element after it. *)
Fixpoint count_pairs (run : list Resource.t)
    (pos_dict : gmap string (gmap string Z)) : gmap string (gmap string Z) :=
  match run with
  | [] => pos_dict
  | x :: rest =>
      count_pairs rest
        (fold_left (fun d y => pos_incr d (Resource.url x) (Resource.url y))
                   rest pos_dict)
  end.

Section StableSetRuns.
Variable har_entries_to_resources : list HarEntry.t -> list Resource.t.
(** The HAR of run [n], for the runs whose capture returns. *)
Variable hars : nat -> Har.t.

Definition run_resources (n : nat) : list Resource.t :=
  har_entries_to_resources (Har.entries (Har.log (hars n))).

(** The resource lists of the runs [k], ..., [k + m - 1] that are not
    empty, in the order of the runs. *)
Definition successful_from (k m : nat) : list (list Resource.t) :=
  filter (fun run => run <> []) (map run_resources (seq k m)).

Definition successful_runs : list (list Resource.t) :=
  successful_from 0 STABLE_SET_NUM_RUNS.

(** What run [n] writes to the log. *)
Definition run_log (url : string) (n : nat) : list LogRecord :=
  mkLog "find_url_stable_set" DEBUG "capturing HAR..."
        [("run", VInt (Z.of_nat n + 1)); ("url", VStr url)]
  :: match run_resources n with
     | [] => [mkLog "find_url_stable_set" WARN "no response received"
                    [("run", VInt (Z.of_nat n + 1))]]
     | _ :: _ => [mkLog "find_url_stable_set" DEBUG "received resources"
                        [("total",
                          VInt (Z.of_nat (length (run_resources n))))]]
     end.
End StableSetRuns.


(** The two readings of the rule "a before b when [P[b][a] - P[a][b]] is
    more negative than [len(successful_runs) // 2]". *)
Definition margin_rule_negated (pos_dict : gmap string (gmap string Z))
    (resource_lists : list (list Resource.t)) : Prop :=
  forall a b : Resource.t,
    cmp_to_key_lt (stable_set_cmp pos_dict resource_lists) a b = true <->
    pos_get pos_dict (Resource.url b) (Resource.url a)
    - pos_get pos_dict (Resource.url a) (Resource.url b)
    < - (Z.of_nat (length resource_lists) / 2).

Definition margin_rule_plain (pos_dict : gmap string (gmap string Z))
    (resource_lists : list (list Resource.t)) : Prop :=
  forall a b : Resource.t,
    cmp_to_key_lt (stable_set_cmp pos_dict resource_lists) a b = true <->
    pos_get pos_dict (Resource.url b) (Resource.url a)
    - pos_get pos_dict (Resource.url a) (Resource.url b)
    < Z.of_nat (length resource_lists) / 2.

(** The HAR of a capture that returned (an empty one otherwise). *)
Definition har_or_empty (outcome : PyExn + Har.t) : Har.t :=
  match outcome with
  | inr har => har
  | inl _ => Har.mk (Har.mkLogT [])
  end.

(** ** Example data *)

Definition world0 : World := mkWorld [] [] [] O.

Definition example_file : File.t := File.mk "example.com" "/app.js" 3600.

Definition example_filestore (record_dir : string) : FileStore.t :=
  FileStore.mk [example_file].

Definition example_resource : Resource.t :=
  Resource.mk "http://example.com/app.js" SCRIPT 1200 0 0 false.

Definition example_group : PushGroup.t :=
  PushGroup.mk [example_resource] true.

Definition example_entry (critical : bool) : HarEntry.t :=
  HarEntry.mk (HarEntry.mkRequest "http://example.com/app.js" "GET")
              "2019-03-01T10:00:00.000Z" 200 1200 "application/javascript"
              critical.

(** The primary capture sees the script as not critical, the comparison
    capture (with [extract_critical_requests]) marks it critical. *)
Definition example_replay (n : nat) (website : string)
    (extract_critical_requests : bool) : PyExn + Har.t :=
  inr (Har.mk (Har.mkLogT [example_entry extract_critical_requests])).

(** A digest of a string, and the slot of a resource in a table of eight
    slots under a given salt. *)
Definition str_digest (s : string) : Z :=
  fold_right (fun c acc => Z.of_N (Ascii.N_of_ascii c) + acc) 0
             (list_ascii_of_string s).

Definition slot (seed : Z) (r : Resource.t) : Z :=
  Z.lxor seed (str_digest (Resource.url r)) mod 8.

Definition slot_le (seed : Z) (x y : Resource.t) : Prop :=
  slot seed x <= slot seed y.

Definition entry_of (u : string) : HarEntry.t :=
  HarEntry.mk (HarEntry.mkRequest u "GET") "2019-03-01T10:00:00.000Z" 200
              1200 "text/plain" false.

Definition har_of (us : list string) : Har.t :=
  Har.mk (Har.mkLogT (map entry_of us)).

(** A converter for the examples: one resource per entry, numbered by
    position. *)
Definition simple_resources (entries : list HarEntry.t) : list Resource.t :=
  imap (fun i h =>
          Resource.mk (HarEntry.url (HarEntry.request h)) OTHER
                      (HarEntry.body_size h) (Z.of_nat i) 0
                      (HarEntry.critical h))
       entries.

(** Ten page loads: four answer with the same three resources in different
    orders, the other six with nothing. *)
Definition voting_runs : list (list string) :=
  [["/a"; "/b"; "/c"]; ["/a"; "/c"; "/b"]; ["/c"; "/a"; "/b"];
   ["/c"; "/b"; "/a"]].

Definition voting_har (n : nat) : Har.t := har_of (nth n voting_runs []).

Definition voting_capture (n : nat) (url : string) : PyExn + Har.t :=
  inr (voting_har n).

(** Ten page loads in which two resources race: one load sees them in one
    order, one in the other, eight see nothing. *)
Definition racing_runs : list (list string) :=
  [["/a"; "/b"]; ["/b"; "/a"]].

Definition racing_har (n : nat) : Har.t := har_of (nth n racing_runs []).

Definition racing_capture (n : nat) (url : string) : PyExn + Har.t :=
  inr (racing_har n).


(** Ten page loads that all answer with nothing. *)
Definition silent_har (n : nat) : Har.t := har_of [].

Definition silent_capture (n : nat) (url : string) : PyExn + Har.t :=
  inr (silent_har n).

(** A small site: the front page links to [/about] and has a named anchor
    without [href]; [/missing] answers 404, [/plain] is not XML, and every
    other host is unreachable. *)
Definition front_page_text : string :=
  "<html><body><a href='/about'>About</a><a name='top'/></body></html>".

Definition front_page : Element :=
  mkElement "html" ∅
    [mkElement "body" ∅
       [mkElement "a" {["href" := "/about"]} [];
        mkElement "a" {["name" := "top"]} []]].

Definition example_fromstring (page_text : string) : option Element :=
  if String.eqb page_text front_page_text then Some front_page else None.

Definition example_http_get (n : nat) (url : string) : PyExn + Response :=
  if String.eqb url "http://example.com/" then
    inr (mkResponse 200 front_page_text)
  else if String.eqb url "http://example.com/missing" then
    inr (mkResponse 404 "Not Found")
  else if String.eqb url "http://example.com/plain" then
    inr (mkResponse 200 "plain text")
  else inl (RequestException "ConnectionError").

Definition example_domain (url : string) : string := "example.com".

(** ** blaze/command/preprocess.py: print_cache_times *)

(** The attributes of the [args] object a command receives.  Reading an
    attribute that is not there raises [AttributeError]. *)
Definition getattr (args : gmap string LogValue) (name : string)
    : M LogValue :=
  match args !! name with
  | Some v => ret v
  | None =>
      raise (AttributeError ("object has no attribute '" +:+ name +:+ "'"))
  end.

(** The part of [EnvironmentConfig] the commands use. *)
Module EnvironmentConfig.
Record t := mk {
  replay_dir : string;
  request_url : string;
  push_groups : list PushGroup.t;
  har_resources : list Resource.t
}.
End EnvironmentConfig.

(** [f"{s:<48}"]: the string, followed by spaces up to the width. *)
Definition ljust (width : nat) (s : string) : string :=
  s +:+ string_of_list_ascii (replicate (width - String.length s) " "%char).

(** [f"{res.url:<48}  {res.cache_time}"] *)
Definition cache_time_line (res : Resource.t) : string :=
  ljust 48 (Resource.url res) +:+ "  " +:+ pretty (Resource.cache_time res).

Section PrintCacheTimes.
Variable FileStore_open : string -> FileStore.t.
(** [EnvironmentConfig.load_file(path)], which may raise. *)
Variable load_file : LogValue -> PyExn + EnvironmentConfig.t.

Definition EnvironmentConfig_load_file (path : LogValue)
    : M EnvironmentConfig.t :=
  match load_file path with
  | inl e => raise e
  | inr env_config => ret env_config
  end.

(** Lines 87-94.  The keyword arguments of [log.info] are evaluated first,
    from left to right. *)
Definition print_cache_times (args : gmap string LogValue) : M unit :=
  website <- getattr args "website" ;;
  max_depth <- getattr args "max_depth" ;;
  emit "" INFO "reading cache information"
       [("website", website); ("max_depth", max_depth)] ;;
  from_manifest <- getattr args "from_manifest" ;;
  env_config <- EnvironmentConfig_load_file from_manifest ;;
  annotated <- annotate_cacheable_objects FileStore_open
                 (EnvironmentConfig.replay_dir env_config)
                 (EnvironmentConfig.push_groups env_config) ;;
  expr_stmt annotated ;;
  for_each (EnvironmentConfig.push_groups env_config) (fun group =>
    for_each (PushGroup.resources group) (fun res =>
      print (cache_time_line res))).
End PrintCacheTimes.

(** ** Reference notions for the extra properties *)

(** The cache time of the last listed file whose host and uri join to
    [s]. *)
Definition last_cache_time (files : list File.t) (s : string) : option Z :=
  last (File.cache_time
          <$> filter (fun f => File.host f +:+ File.uri f = s) files).


(** The position of [u] in [us] (the length of [us] when it is absent). *)
Fixpoint index_of (us : list string) (u : string) : nat :=
  match us with
  | [] => O
  | x :: us' => if String.eqb x u then O else S (index_of us' u)
  end.

(** The [href] of an anchor that [get_page_links] keeps for a page of the
    given domain: it starts with [http] or [/] and has the page's domain. *)
Definition kept_link (Url_domain : string -> string) (domain : string)
    (link_url : string) : bool :=
  existsb (fun prefix => String.prefix prefix link_url) ["http"; "/"]
  && String.eqb (Url_domain link_url) domain.


Definition declared_args : gmap string LogValue :=
  {[ "from_manifest" := VStr "manifest.json" ]}.

Definition example_manifest (path : LogValue)
    : PyExn + EnvironmentConfig.t :=
  inr (EnvironmentConfig.mk "record" "http://example.com/"
         [example_group] []).

(** The urls the comparison capture marks critical. *)
Definition critical_urls (har2 : Har.t) : list string :=
  map (fun h => HarEntry.url (HarEntry.request h))
      (filter (fun h => HarEntry.critical h = true)
              (Har.entries (Har.log har2))).

(** Ten page loads of which three answer, each with the same three
    resources in the same order. *)
Definition agreeing_runs : list (list string) :=
  [["/b"; "/a"; "/c"]; []; ["/b"; "/a"; "/c"]; ["/b"; "/a"; "/c"]].

Definition failing_free_capture (n : nat) (url : string) : PyExn + Har.t :=
  inr (har_of (nth n agreeing_runs [])).

(** A site for crawling: the front page links twice to [/about], once to
    another host and once by mail; [/about] links to [/team], which is
    missing. *)
Definition crawl_front : Element :=
  mkElement "html" ∅
    [mkElement "body" ∅
       [mkElement "a" {["href" := "/about"]} [];
        mkElement "div" ∅
          [mkElement "a" {["href" := "http://other.org/x"]} [];
           mkElement "a" {["href" := "mailto:x"]} []];
        mkElement "a" {["href" := "/about"]} []]].

Definition crawl_about : Element :=
  mkElement "html" ∅ [mkElement "a" {["href" := "/team"]} []].

Definition crawl_http_get (n : nat) (url : string) : PyExn + Response :=
  if String.eqb url "http://example.com/" then inr (mkResponse 200 "front")
  else if String.eqb url "/about" then inr (mkResponse 200 "about")
  else inl (RequestException "ConnectionError").

Definition crawl_fromstring (page_text : string) : option Element :=
  if String.eqb page_text "front" then Some crawl_front
  else if String.eqb page_text "about" then Some crawl_about
  else None.

Definition crawl_domain (url : string) : string :=
  if String.prefix "http://other" url then "other.org" else "example.com".

(** A page whose only link is to itself. *)
Definition loop_page : Element :=
  mkElement "html" ∅ [mkElement "a" {["href" := "http://example.com/"]} []].

Definition loop_http_get (n : nat) (url : string) : PyExn + Response :=
  inr (mkResponse 200 "loop").

Definition loop_fromstring (page_text : string) : option Element :=
  Some loop_page.

(** A replay server whose comparison capture times out. *)
Definition comparison_fails (n : nat) (website : string)
    (extract_critical_requests : bool) : PyExn + Har.t :=
  if extract_critical_requests then inl (OtherException "TimeoutError")
  else inr (Har.mk (Har.mkLogT [example_entry false])).

(** * Properties *)

(** ** The monad *)

Lemma bind_eq {A B} (c : M A) (k : A -> M B) w :
  bind c k w =
  match c w with
  | (Ok a, w') => k a w'
  | (Raise e, w') => (Raise e, w')
  end.
Proof. reflexivity. Qed.

Lemma for_fold_cons {A St} (x : A) (l : list A) (s : St)
    (body : St -> A -> M St) w :
  for_fold (x :: l) s body w =
  match body s x w with
  | (Ok s', w') => for_fold l s' body w'
  | (Raise e, w') => (Raise e, w')
  end.
Proof. reflexivity. Qed.

(** A loop whose body has no effect has none. *)
Lemma for_each_skip {A} (l : list A) (body : A -> M unit) w :
  (forall x w', body x w' = (Ok tt, w')) ->
  for_each l body w = (Ok tt, w).
Proof.
  intros Hbody. unfold for_each. revert w.
  induction l as [|x l IH]; intros w; [reflexivity|].
  rewrite for_fold_cons, Hbody. apply IH.
Qed.

(** ** preprocess.py: the cache annotator *)

Lemma annotate_resource_skip cache_times (res : Resource.t) w :
  (let cache_time := dict_get cache_times (Resource.url res) 0 in
   if 0 <? cache_time
   then expr_stmt (Resource._replace_cache_time res cache_time)
   else ret tt) w = (Ok tt, w).
Proof. simpl. destruct (0 <? _); reflexivity. Qed.

Lemma annotate_cacheable_objects_returns_argument FileStore_open record_dir
    push_groups w :
  annotate_cacheable_objects FileStore_open record_dir push_groups w
  = (Ok push_groups, w).
Proof.
  unfold annotate_cacheable_objects, bind.
  rewrite for_each_skip; [reflexivity|].
  intros group w'. apply for_each_skip.
  intros res w''. apply annotate_resource_skip.
Qed.

Lemma dict_comp_insert {A} (key : A -> string) (value : A -> Z)
    (fs : list A) (d : gmap string Z) (k : string) :
  is_Some (d !! k) ->
  is_Some (fold_left (fun d f => <[key f := value f]> d) fs d !! k).
Proof.
  revert d. induction fs as [|f fs IH]; intros d Hd; cbn [fold_left];
    [exact Hd|].
  apply IH. destruct (decide (key f = k)) as [<-|Hne].
  - rewrite lookup_insert_eq. eauto.
  - now rewrite lookup_insert_ne.
Qed.

(** Every file listed gives an entry under its key. *)
Lemma dict_comp_key {A} (key : A -> string) (value : A -> Z)
    (fs : list A) (f : A) :
  f ∈ fs -> is_Some (dict_comp key value fs !! key f).
Proof.
  unfold dict_comp. generalize (∅ : gmap string Z) as d.
  induction fs as [|g fs IH]; intros d Hin.
  - now apply elem_of_nil in Hin.
  - cbn [fold_left]. apply elem_of_cons in Hin.
    destruct Hin as [<-|Hin]; [|now apply IH].
    apply dict_comp_insert. rewrite lookup_insert_eq. eauto.
Qed.

Lemma cache_times_of_keys (filestore : FileStore.t) (f : File.t) :
  f ∈ FileStore.cacheable_files filestore ->
  is_Some (cache_times_of filestore
             !! ("http://" +:+ File.host f +:+ File.uri f)) /\
  is_Some (cache_times_of filestore
             !! ("https://" +:+ File.host f +:+ File.uri f)).
Proof.
  intros Hin. unfold cache_times_of, dict_unpack2. split.
  - apply lookup_union_is_Some. right.
    now apply (dict_comp_key
                 (fun f => "http://" +:+ File.host f +:+ File.uri f)).
  - apply lookup_union_is_Some. left.
    now apply (dict_comp_key
                 (fun f => "https://" +:+ File.host f +:+ File.uri f)).
Qed.

(** C1: the lookup has an entry under the [http://] and the [https://] url
    of every cacheable file, as claimed; the annotation is lost.  Evaluated
    where the claim fails: the record directory lists [example.com/app.js]
    with a cache time of 3600 seconds, the lookup for the resource's url
    gives 3600, and the resource comes back with the cache time 0 it had:
    the tuple built by [_replace] is dropped. *)
Theorem annotate_cacheable_objects_loses_cache_time :
  (forall filestore f,
      f ∈ FileStore.cacheable_files filestore ->
      is_Some (cache_times_of filestore
                 !! ("http://" +:+ File.host f +:+ File.uri f)) /\
      is_Some (cache_times_of filestore
                 !! ("https://" +:+ File.host f +:+ File.uri f))) /\
  dict_get (cache_times_of (example_filestore "record"))
           (Resource.url example_resource) 0 = 3600 /\
  annotate_cacheable_objects example_filestore "record" [example_group] world0
  = (Ok [example_group], world0) /\
  map Resource.cache_time (PushGroup.resources example_group) = [0].
Proof.
  split; [exact cache_times_of_keys|].
  split; [vm_compute; reflexivity|].
  split; [apply annotate_cacheable_objects_returns_argument|reflexivity].
Qed.

(** C8: the annotator returns the very list it was given, so no group and no
    resource is removed, added or moved, and running it again on its result
    gives the same result and the same world as running it once. *)
Theorem annotate_cacheable_objects_pure_idempotent :
  forall FileStore_open record_dir push_groups w,
    annotate_cacheable_objects FileStore_open record_dir push_groups w
    = (Ok push_groups, w) /\
    (annotated <- annotate_cacheable_objects FileStore_open record_dir
                    push_groups ;;
     annotate_cacheable_objects FileStore_open record_dir annotated) w
    = annotate_cacheable_objects FileStore_open record_dir push_groups w.
Proof.
  intros FileStore_open record_dir push_groups w. split.
  - apply annotate_cacheable_objects_returns_argument.
  - rewrite bind_eq, !annotate_cacheable_objects_returns_argument.
    reflexivity.
Qed.

(** ** preprocess.py: critical requests *)

Lemma for_each_returns {A} (l : list A) (body : A -> M unit) w :
  (forall x w', fst (body x w') = Ok tt) ->
  fst (for_each l body w) = Ok tt.
Proof.
  intros Hbody. unfold for_each. revert w.
  induction l as [|x l IH]; intros w; [reflexivity|].
  rewrite for_fold_cons. specialize (Hbody x w).
  destruct (body x w) as [[[]|e] w']; cbn in Hbody; [apply IH|discriminate].
Qed.

(** With [extract_critical_requests], when both captures return, the
    resources are those of the primary capture as it was captured: the
    comparison capture has no influence on the result. *)
Lemma get_har_resources_ignores_comparison
    (har_entries_to_resources : list HarEntry.t -> list Resource.t)
    (replay_capture : nat -> string -> bool -> PyExn + Har.t)
    (website : string) (har har2 : Har.t) w :
  replay_capture (captures w) website false = inr har ->
  replay_capture (S (captures w)) website true = inr har2 ->
  fst (get_har_resources har_entries_to_resources replay_capture website
                         true w)
  = Ok (har_entries_to_resources (Har.entries (Har.log har))).
Proof.
  intros Hhar Hhar2. unfold get_har_resources.
  rewrite bind_eq. unfold capture_har_in_replay_server at 1.
  rewrite Hhar. cbn [negb]. rewrite bind_eq.
  unfold capture_har_in_replay_server at 1. cbn [captures].
  rewrite Hhar2, bind_eq.
  match goal with
  | |- context [for_each ?l ?body ?w0] =>
      pose proof (for_each_returns l body w0) as Hloop;
      destruct (for_each l body w0) as [[[]|e] w']
  end.
  - reflexivity.
  - cbn in Hloop. discriminate Hloop.
    intros res w1. destruct (bool_decide _); reflexivity.
Qed.

(** C5, evaluated where the claim fails: whatever [har_entries_to_resources]
    does, with [extract_critical_requests] it is handed the entry of the
    primary capture with [critical] still false, although the comparison
    capture lists the same url as critical (the line printed shows that
    the match was found). *)
Theorem get_har_resources_loses_critical :
  forall har_entries_to_resources,
    get_har_resources har_entries_to_resources example_replay
                      "http://example.com/" true world0
    = (Ok (har_entries_to_resources [example_entry false]),
       mkWorld [] ["doing some critical work"] [] 2) /\
    HarEntry.critical (example_entry false) = false /\
    HarEntry.url (HarEntry.request (example_entry false))
    = HarEntry.url (HarEntry.request (example_entry true)).
Proof.
  intros conv. split; [|split; reflexivity].
  vm_compute. reflexivity.
Qed.

(** ** preprocess.py: the default training pattern *)

Lemma append_length (a b : string) :
  String.length (a +:+ b) = (String.length a + String.length b)%nat.
Proof. induction a as [|c a IH]; simpl; [reflexivity|]. now rewrite IH. Qed.

(** C7 as stated fails for every page: the default pattern is never
    [*.D*]. *)
Lemma preprocess_default_glob_has_no_dot :
  preprocess_train_domain_globs (fun _ => "example.com")
                                "http://example.com/" None
  <> ["*.example.com*"].
Proof. vm_compute. discriminate. Qed.

(** C7, amended: without [train_domain_globs] (the option absent, or given
    with no value) the pattern list is exactly [["*D*"]], the page's domain
    between two asterisks and no dot; a non-empty list is used as given. *)
Theorem preprocess_default_glob :
  forall Url_domain website,
    preprocess_train_domain_globs Url_domain website None
    = ["*" +:+ Url_domain website +:+ "*"] /\
    preprocess_train_domain_globs Url_domain website (Some [])
    = ["*" +:+ Url_domain website +:+ "*"] /\
    preprocess_train_domain_globs Url_domain website None
    <> ["*." +:+ Url_domain website +:+ "*"] /\
    (forall g gs,
        preprocess_train_domain_globs Url_domain website (Some (g :: gs))
        = g :: gs).
Proof.
  intros Url_domain website. repeat split.
  intros Heq. apply (f_equal (map String.length)) in Heq. simpl in Heq.
  injection Heq as Heq. rewrite !append_length in Heq. simpl in Heq. lia.
Qed.

(** ** list.sort permutes *)

Section ListSortShortFacts.
Context {A : Type} (lt : A -> A -> bool).

Lemma binary_insert_perm (sorted : list A) (pivot : A) :
  binary_insert lt sorted pivot ≡ₚ pivot :: sorted.
Proof.
  unfold binary_insert.
  rewrite <- Permutation_middle, take_drop. reflexivity.
Qed.

Lemma binarysort_perm (rest run : list A) :
  binarysort lt run rest ≡ₚ run ++ rest.
Proof.
  unfold binarysort. revert run.
  induction rest as [|x rest IH]; intros run; simpl.
  - now rewrite app_nil_r.
  - rewrite IH, binary_insert_perm.
    now rewrite <- Permutation_middle.
Qed.

Lemma listsort_short_perm (l : list A) : listsort_short lt l ≡ₚ l.
Proof.
  unfold listsort_short.
  destruct l as [|x [|y l]]; [reflexivity..|].
  generalize (x :: y :: l) as l'. intros l'.
  destruct (count_run lt l') as [n descending].
  rewrite binarysort_perm.
  transitivity (take n l' ++ drop n l'); [|now rewrite take_drop].
  apply Permutation_app_tail.
  destruct descending; [symmetry; apply Permutation_rev|reflexivity].
Qed.
End ListSortShortFacts.

(** The interpreter parts used in the examples.  A hash table with eight
    slots in which every key sits in the slot of its salted hash iterates by
    increasing slot; [seed] is the salt the process drew at start-up. *)
#[local] Instance slot_le_dec (seed : Z) (x y : Resource.t)
    : Decision (slot_le seed x y) :=
  Z_le_dec (slot seed x) (slot seed y).

#[local] Instance salted_order (seed : Z) : SetOrder :=
  {| set_iter := merge_sort (slot_le seed);
     set_iter_perm := merge_sort_Permutation (slot_le seed) |}.

#[local] Instance short_sort : ListSort :=
  {| list_sort := listsort_short;
     list_sort_perm := listsort_short_perm;
     list_sort_short := fun lt l _ => eq_refl |}.

(** ** Sets of resources *)

Lemma Resource_eqb_eq (a b : Resource.t) :
  Resource.eqb a b = true <-> Resource.url a = Resource.url b.
Proof. unfold Resource.eqb. apply String.eqb_eq. Qed.

Lemma set_contains_urls (s : list Resource.t) (r : Resource.t) :
  set_contains s r = true <-> Resource.url r ∈ urls s.
Proof.
  unfold set_contains, urls. rewrite existsb_exists, list_elem_of_fmap.
  split.
  - intros (x & Hin & Heq). apply Resource_eqb_eq in Heq.
    exists x. split; [exact Heq|]. now apply list_elem_of_In.
  - intros (x & Heq & Hin). exists x. split.
    + now apply list_elem_of_In.
    + now apply Resource_eqb_eq.
Qed.

Lemma set_contains_perm (s s' : list Resource.t) (r : Resource.t) :
  s ≡ₚ s' -> set_contains s r = set_contains s' r.
Proof.
  intros Hp. apply eq_true_iff_eq. rewrite !set_contains_urls.
  unfold urls. now rewrite Hp.
Qed.

Lemma set_insert_all_fold (l : list Resource.t) :
  set_insert_all l = fold_left set_add l [].
Proof. reflexivity. Qed.

Lemma fold_set_add_urls (l acc : list Resource.t) (u : string) :
  u ∈ urls (fold_left set_add l acc) <-> u ∈ urls acc \/ u ∈ urls l.
Proof.
  revert acc. induction l as [|x l IH]; intros acc.
  - cbn. rewrite elem_of_nil. tauto.
  - cbn [fold_left]. rewrite IH. unfold set_add, urls.
    rewrite fmap_cons, elem_of_cons.
    destruct (set_contains acc x) eqn:Hc.
    + apply set_contains_urls in Hc. unfold urls in Hc.
      split; [tauto|]. intros [H|[->|H]]; tauto.
    + rewrite fmap_app, elem_of_app, fmap_cons, list_elem_of_singleton.
      tauto.
Qed.

Lemma fold_set_add_NoDup (l acc : list Resource.t) :
  NoDup (urls acc) -> NoDup (urls (fold_left set_add l acc)).
Proof.
  revert acc. induction l as [|x l IH]; intros acc Hnd; simpl; [exact Hnd|].
  apply IH. unfold set_add.
  destruct (set_contains acc x) eqn:Hc; [exact Hnd|].
  unfold urls. rewrite fmap_app. simpl.
  apply NoDup_app. split; [exact Hnd|]. split.
  - intros u Hu Hin. apply list_elem_of_singleton in Hin. subst u.
    apply set_contains_urls in Hu. congruence.
  - apply NoDup_singleton.
Qed.

Lemma fold_set_add_elem (l acc : list Resource.t) (r : Resource.t) :
  r ∈ fold_left set_add l acc -> r ∈ acc \/ r ∈ l.
Proof.
  revert acc. induction l as [|x l IH]; intros acc; simpl; [tauto|].
  intros Hin. apply IH in Hin. rewrite elem_of_cons.
  destruct Hin as [Hin|Hin]; [|tauto].
  unfold set_add in Hin. destruct (set_contains acc x); [tauto|].
  apply elem_of_app in Hin. destruct Hin as [Hin|Hin]; [tauto|].
  apply list_elem_of_singleton in Hin. tauto.
Qed.

(** A list without two equal urls is stored as it is. *)
Lemma fold_set_add_NoDup_id (l acc : list Resource.t) :
  NoDup (urls (acc ++ l)) -> fold_left set_add l acc = acc ++ l.
Proof.
  revert acc. induction l as [|x l IH]; intros acc Hnd; simpl.
  - now rewrite app_nil_r.
  - assert (Hc : set_contains acc x = false).
    { apply not_true_is_false. intros Hc. apply set_contains_urls in Hc.
      unfold urls in Hnd. rewrite fmap_app in Hnd. simpl in Hnd.
      apply NoDup_app in Hnd. destruct Hnd as (_ & Hdisj & _).
      apply (Hdisj _ Hc). apply elem_of_cons. now left. }
    unfold set_add at 2. rewrite Hc.
    rewrite IH; rewrite <- app_assoc; [reflexivity|exact Hnd].
Qed.

Lemma set_insert_all_NoDup_id (l : list Resource.t) :
  NoDup (urls l) -> set_insert_all l = l.
Proof.
  intros Hnd. rewrite set_insert_all_fold.
  now apply fold_set_add_NoDup_id.
Qed.

Section SetFacts.
Context {set_order : SetOrder}.

Lemma set_new_perm (l : list Resource.t) : set_new l ≡ₚ set_insert_all l.
Proof. apply set_iter_perm. Qed.

Lemma set_new_urls (l : list Resource.t) (u : string) :
  u ∈ urls (set_new l) <-> u ∈ urls l.
Proof.
  unfold urls at 1. rewrite set_new_perm. fold (urls (set_insert_all l)).
  rewrite set_insert_all_fold, fold_set_add_urls.
  cbn. rewrite elem_of_nil. tauto.
Qed.

Lemma set_new_NoDup (l : list Resource.t) : NoDup (urls (set_new l)).
Proof.
  unfold urls. rewrite set_new_perm. apply fold_set_add_NoDup.
  apply NoDup_nil_2.
Qed.

Lemma set_new_elem (l : list Resource.t) (r : Resource.t) :
  r ∈ set_new l -> r ∈ l.
Proof.
  rewrite set_new_perm, set_insert_all_fold. intros Hin.
  apply fold_set_add_elem in Hin. rewrite elem_of_nil in Hin. tauto.
Qed.
End SetFacts.

Lemma filter_contains_urls (so other : list Resource.t) (u : string) :
  u ∈ urls (filter (fun key => set_contains so key = true) other) <->
  u ∈ urls so /\ u ∈ urls other.
Proof.
  unfold urls at 1 3. rewrite !list_elem_of_fmap. split.
  - intros (r & -> & Hin). apply list_elem_of_filter in Hin.
    destruct Hin as [Hc Hin]. apply set_contains_urls in Hc. eauto.
  - intros (Hso & r & -> & Hin). exists r. split; [reflexivity|].
    apply list_elem_of_filter. split; [|exact Hin].
    now apply set_contains_urls.
Qed.

Lemma filter_urls_NoDup (P : Resource.t -> Prop)
    `{!forall r, Decision (P r)} (l : list Resource.t) :
  NoDup (urls l) -> NoDup (urls (filter P l)).
Proof.
  intros Hnd. apply (sublist_NoDup _ _ Hnd).
  unfold urls. apply fmap_sublist, sublist_filter.
Qed.

Section IntersectionFacts.
Context {set_order : SetOrder}.

Lemma set_intersection_urls (so other : list Resource.t) (u : string) :
  u ∈ urls (set_intersection so other) <-> u ∈ urls so /\ u ∈ urls other.
Proof.
  unfold set_intersection.
  destruct (length so <? length other)%nat;
    rewrite set_new_urls, filter_contains_urls; tauto.
Qed.

Lemma set_intersection_NoDup (so other : list Resource.t) :
  NoDup (urls (set_intersection so other)).
Proof.
  unfold set_intersection.
  destruct (length so <? length other)%nat; apply set_new_NoDup.
Qed.

Lemma set_intersection_elem (so other : list Resource.t) (r : Resource.t) :
  r ∈ set_intersection so other -> r ∈ so \/ r ∈ other.
Proof.
  unfold set_intersection.
  destruct (length so <? length other)%nat; intros Hin;
    apply set_new_elem, list_elem_of_filter in Hin; tauto.
Qed.

Lemma fold_set_intersection_urls (args : list (list Resource.t))
    (so : list Resource.t) (u : string) :
  u ∈ urls (fold_left set_intersection args so) <->
  u ∈ urls so /\ forall s, s ∈ args -> u ∈ urls s.
Proof.
  revert so. induction args as [|a args IH]; intros so; cbn [fold_left].
  - split; [|tauto]. intros Hu. split; [exact Hu|].
    intros s Hs. now apply elem_of_nil in Hs.
  - rewrite IH, set_intersection_urls. split.
    + intros [[Hso Ha] Hargs]. split; [exact Hso|].
      intros s Hs. apply elem_of_cons in Hs.
      destruct Hs as [->|Hs]; [exact Ha|now apply Hargs].
    + intros [Hso Hall]. repeat split; [exact Hso|..].
      * apply Hall. apply elem_of_cons. now left.
      * intros s Hs. apply Hall. apply elem_of_cons. now right.
Qed.

Lemma fold_set_intersection_NoDup (args : list (list Resource.t))
    (so : list Resource.t) :
  NoDup (urls so) -> NoDup (urls (fold_left set_intersection args so)).
Proof.
  revert so. induction args as [|a args IH]; intros so Hnd;
    cbn [fold_left]; [exact Hnd|].
  apply IH, set_intersection_NoDup.
Qed.

Lemma fold_set_intersection_elem (args : list (list Resource.t))
    (so : list Resource.t) (r : Resource.t) :
  r ∈ fold_left set_intersection args so ->
  r ∈ so \/ exists s, s ∈ args /\ r ∈ s.
Proof.
  revert so. induction args as [|a args IH]; intros so; cbn [fold_left].
  - tauto.
  - intros Hin. apply IH in Hin. destruct Hin as [Hin|(s & Hs & Hin)].
    + apply set_intersection_elem in Hin. destruct Hin as [Hin|Hin].
      * now left.
      * right. exists a. split; [apply elem_of_cons; now left|exact Hin].
    + right. exists s. split; [apply elem_of_cons; now right|exact Hin].
Qed.

Lemma common_resources_urls (resource_lists : list (list Resource.t))
    (u : string) :
  u ∈ urls (common_resources resource_lists) <->
  resource_lists <> [] /\ forall s, s ∈ resource_lists -> u ∈ urls s.
Proof.
  destruct resource_lists as [|so [|a args]];
    unfold common_resources, set_intersection_multi.
  - cbn. rewrite elem_of_nil. split; [tauto|]. intros [H _]. congruence.
  - rewrite set_new_urls. split.
    + intros Hu. split; [discriminate|]. intros s Hs.
      apply list_elem_of_singleton in Hs. now subst s.
    + intros [_ Hall]. apply Hall. now apply list_elem_of_singleton.
  - rewrite fold_set_intersection_urls. split.
    + intros [Hso Hall]. split; [discriminate|]. intros s Hs.
      apply elem_of_cons in Hs. destruct Hs as [->|Hs]; auto.
    + intros [_ Hall]. split.
      * apply Hall. apply elem_of_cons. now left.
      * intros s Hs. apply Hall. apply elem_of_cons. now right.
Qed.

Lemma common_resources_NoDup (resource_lists : list (list Resource.t)) :
  NoDup (urls (common_resources resource_lists)).
Proof.
  destruct resource_lists as [|so [|a args]];
    unfold common_resources, set_intersection_multi.
  - apply NoDup_nil_2.
  - apply set_new_NoDup.
  - cbn [fold_left]. apply fold_set_intersection_NoDup,
      set_intersection_NoDup.
Qed.

Lemma common_resources_elem (resource_lists : list (list Resource.t))
    (r : Resource.t) :
  r ∈ common_resources resource_lists ->
  exists s, s ∈ resource_lists /\ r ∈ s.
Proof.
  destruct resource_lists as [|so [|a args]];
    unfold common_resources, set_intersection_multi.
  - intros Hin. now apply elem_of_nil in Hin.
  - intros Hin. apply set_new_elem in Hin. exists so.
    split; [now apply list_elem_of_singleton|exact Hin].
  - intros Hin. apply fold_set_intersection_elem in Hin.
    destruct Hin as [Hin|(s & Hs & Hin)].
    + exists so. split; [apply elem_of_cons; now left|exact Hin].
    + exists s. split; [apply elem_of_cons; now right|exact Hin].
Qed.
End IntersectionFacts.

(** Two interpreters that differ in the iteration order of sets compute the
    same intersections up to the order of the elements. *)
Section TwoSetOrders.
Variables o1 o2 : SetOrder.

Lemma set_new_two_orders (l : list Resource.t) :
  @set_new o1 l ≡ₚ @set_new o2 l.
Proof. now rewrite !set_new_perm. Qed.

Lemma set_new_NoDup_perm (o : SetOrder) (l : list Resource.t) :
  NoDup (urls l) -> @set_new o l ≡ₚ l.
Proof.
  intros Hnd. rewrite set_new_perm. now rewrite set_insert_all_NoDup_id.
Qed.

Lemma set_intersection_two_orders (so1 so2 other1 other2 : list Resource.t) :
  so1 ≡ₚ so2 -> other1 ≡ₚ other2 ->
  NoDup (urls so1) -> NoDup (urls other1) ->
  @set_intersection o1 so1 other1 ≡ₚ @set_intersection o2 so2 other2.
Proof.
  intros Hso Hother Hnd1 Hnd2.
  assert (Hnd1' : NoDup (urls so2)) by (unfold urls; now rewrite <- Hso).
  assert (Hnd2' : NoDup (urls other2))
    by (unfold urls; now rewrite <- Hother).
  unfold set_intersection.
  rewrite <- (Permutation_length Hso), <- (Permutation_length Hother).
  destruct (length so1 <? length other1)%nat.
  - rewrite !set_new_NoDup_perm by now apply filter_urls_NoDup.
    rewrite Hso.
    rewrite (list_filter_iff _ (fun key => set_contains other2 key = true));
      [reflexivity|].
    intros r. now rewrite (set_contains_perm _ _ r Hother).
  - rewrite !set_new_NoDup_perm by now apply filter_urls_NoDup.
    rewrite Hother.
    rewrite (list_filter_iff _ (fun key => set_contains so2 key = true));
      [reflexivity|].
    intros r. now rewrite (set_contains_perm _ _ r Hso).
Qed.

Lemma fold_set_intersection_two_orders (args1 args2 : list (list Resource.t))
    (so1 so2 : list Resource.t) :
  Forall2 Permutation args1 args2 -> so1 ≡ₚ so2 ->
  Forall (fun s => NoDup (urls s)) args1 -> NoDup (urls so1) ->
  fold_left (@set_intersection o1) args1 so1
  ≡ₚ fold_left (@set_intersection o2) args2 so2.
Proof.
  intros Hargs. revert so1 so2.
  induction Hargs as [|a1 a2 args1 args2 Ha Hargs IH];
    intros so1 so2 Hso Hnds Hnd; cbn [fold_left]; [exact Hso|].
  apply Forall_cons in Hnds. destruct Hnds as [Hnda Hnds].
  apply IH; [|exact Hnds|apply set_intersection_NoDup].
  now apply set_intersection_two_orders.
Qed.

Lemma common_resources_two_orders (rls1 rls2 : list (list Resource.t)) :
  Forall2 Permutation rls1 rls2 ->
  Forall (fun s => NoDup (urls s)) rls1 ->
  @common_resources o1 rls1 ≡ₚ @common_resources o2 rls2.
Proof.
  intros Hrls Hnds. destruct Hrls as [|so1 so2 args1 args2 Hso Hargs];
    [reflexivity|].
  apply Forall_cons in Hnds. destruct Hnds as [Hnd Hnds].
  unfold common_resources, set_intersection_multi.
  destruct Hargs as [|a1 a2 args1 args2 Ha Hargs].
  - rewrite !set_new_NoDup_perm; [exact Hso|..]; [|exact Hnd].
    unfold urls. now rewrite <- Hso.
  - apply fold_set_intersection_two_orders; auto.
Qed.
End TwoSetOrders.

(** ** The precedence counters *)

Lemma pos_get_incr (P : gmap string (gmap string Z)) (a b a' b' : string) :
  pos_get (pos_incr P a b) a' b'
  = pos_get P a' b' + (if decide (a = a' /\ b = b') then 1 else 0).
Proof.
  unfold pos_incr, pos_get.
  destruct (decide (a = a')) as [<-|Ha].
  - rewrite lookup_insert_eq. cbn [from_option id].
    destruct (decide (b = b')) as [<-|Hb].
    + rewrite lookup_insert_eq. cbn [from_option id].
      rewrite decide_True by tauto. reflexivity.
    + rewrite lookup_insert_ne by exact Hb.
      rewrite decide_False by tauto. lia.
  - rewrite lookup_insert_ne by exact Ha.
    rewrite decide_False by tauto. lia.
Qed.

Lemma pos_get_fold_incr (rest : list Resource.t)
    (P : gmap string (gmap string Z)) (a a' b' : string) :
  pos_get (fold_left (fun d y => pos_incr d a (Resource.url y)) rest P) a' b'
  = pos_get P a' b'
    + (if String.eqb a a'
       then Z.of_nat (length (filter (fun y => Resource.url y = b') rest))
       else 0).
Proof.
  revert P. induction rest as [|y rest IH]; intros P; cbn [fold_left].
  - cbn. destruct (String.eqb a a'); lia.
  - rewrite IH, pos_get_incr.
    destruct (String.eqb a a') eqn:Ha.
    + apply String.eqb_eq in Ha. subst a'.
      destruct (decide (Resource.url y = b')) as [Hb|Hb].
      * rewrite filter_cons_True by exact Hb.
        rewrite decide_True by tauto. cbn [length]. lia.
      * rewrite filter_cons_False by exact Hb.
        rewrite decide_False by tauto. lia.
    + apply String.eqb_neq in Ha. rewrite decide_False by tauto. lia.
Qed.

Lemma pos_get_count_pairs (run : list Resource.t)
    (P : gmap string (gmap string Z)) (a b : string) :
  pos_get (count_pairs run P) a b = pos_get P a b + precedence_count a b run.
Proof.
  revert P. induction run as [|x rest IH]; intros P;
    cbn [count_pairs precedence_count]; [lia|].
  rewrite IH, pos_get_fold_incr. lia.
Qed.

Lemma pos_get_positions (runs : list (list Resource.t))
    (P : gmap string (gmap string Z)) (a b : string) :
  pos_get (fold_left (fun d run => count_pairs run d) runs P) a b
  = pos_get P a b + votes runs a b.
Proof.
  revert P. induction runs as [|run runs IH]; intros P;
    cbn [fold_left votes fold_right]; [lia|].
  rewrite IH, pos_get_count_pairs. unfold votes. lia.
Qed.

(** The loops over indices do what [count_pairs] does and never raise. *)
Lemma getitem_lookup {A} (l : list A) (i : nat) (x : A) w :
  l !! i = Some x -> getitem l i w = (Ok x, w).
Proof. intros H. unfold getitem. now rewrite H. Qed.

Lemma count_positions_inner (l : list Resource.t) (i : nat) (ri : Resource.t)
    (rest pre : list Resource.t) (P : gmap string (gmap string Z)) w :
  l = pre ++ rest -> l !! i = Some ri ->
  for_fold (seq (length pre) (length rest)) P
    (fun pos_dict j =>
       ri <- getitem l i ;;
       rj <- getitem l j ;;
       ret (pos_incr pos_dict (Resource.url ri) (Resource.url rj))) w
  = (Ok (fold_left (fun d y => pos_incr d (Resource.url ri) (Resource.url y))
                   rest P), w).
Proof.
  intros Hl Hi. revert pre P Hl.
  induction rest as [|y rest IH]; intros pre P Hl; [reflexivity|].
  cbn [length seq fold_left]. rewrite for_fold_cons, !bind_eq.
  rewrite (getitem_lookup _ _ _ _ Hi), bind_eq.
  rewrite (getitem_lookup l (length pre) y).
  2:{ rewrite Hl. now apply list_lookup_middle. }
  cbn [ret].
  replace (S (length pre)) with (length (pre ++ [y]))
    by (rewrite length_app; cbn; lia).
  apply IH. rewrite Hl, <- app_assoc. reflexivity.
Qed.

Lemma count_positions_outer (l suf pre : list Resource.t)
    (P : gmap string (gmap string Z)) w :
  l = pre ++ suf ->
  for_fold (seq (length pre) (length suf)) P
    (fun pos_dict i =>
       for_fold (seq (i + 1) (length l - (i + 1))) pos_dict
         (fun pos_dict j =>
            ri <- getitem l i ;;
            rj <- getitem l j ;;
            ret (pos_incr pos_dict (Resource.url ri) (Resource.url rj)))) w
  = (Ok (count_pairs suf P), w).
Proof.
  revert pre P. induction suf as [|x rest IH]; intros pre P Hl;
    [reflexivity|].
  cbn [length seq count_pairs]. rewrite for_fold_cons.
  replace (length pre + 1)%nat with (length (pre ++ [x]))
    by (rewrite length_app; cbn; lia).
  replace (length l - length (pre ++ [x]))%nat with (length rest)
    by (rewrite Hl, !length_app; cbn; lia).
  rewrite (count_positions_inner l (length pre) x rest (pre ++ [x])).
  - replace (S (length pre)) with (length (pre ++ [x]))
      by (rewrite length_app; cbn; lia).
    apply IH. rewrite Hl, <- app_assoc. reflexivity.
  - rewrite Hl, <- app_assoc. reflexivity.
  - rewrite Hl. now apply list_lookup_middle.
Qed.

Lemma count_positions_ok (resource_list : list Resource.t)
    (P : gmap string (gmap string Z)) w :
  count_positions resource_list P w = (Ok (count_pairs resource_list P), w).
Proof.
  unfold count_positions.
  apply (count_positions_outer resource_list resource_list []).
  reflexivity.
Qed.

(** ** The capture loop in closed form *)

Lemma successful_from_S
    (har_entries_to_resources : list HarEntry.t -> list Resource.t)
    (hars : nat -> Har.t) (k m : nat) :
  successful_from har_entries_to_resources hars k (S m)
  = match run_resources har_entries_to_resources hars k with
    | [] => successful_from har_entries_to_resources hars (S k) m
    | _ :: _ =>
        run_resources har_entries_to_resources hars k
        :: successful_from har_entries_to_resources hars (S k) m
    end.
Proof.
  unfold successful_from. cbn [seq map].
  destruct (run_resources har_entries_to_resources hars k) eqn:Hk.
  - rewrite filter_cons_False by tauto. reflexivity.
  - rewrite filter_cons_True by discriminate. reflexivity.
Qed.

Section CaptureLoop.
Context {set_order : SetOrder}.
Variable har_entries_to_resources : list HarEntry.t -> list Resource.t.
Variable chrome_capture : nat -> string -> PyExn + Har.t.
Variable hars : nat -> Har.t.
Variable url : string.

Local Abbreviation resources_of :=
  (run_resources har_entries_to_resources hars).
Local Abbreviation successful :=
  (successful_from har_entries_to_resources hars).
Local Abbreviation logged :=
  (run_log har_entries_to_resources hars url).
Local Abbreviation one_run :=
  (capture_run har_entries_to_resources chrome_capture url).

(** One run whose capture returns. *)
Lemma capture_run_ok (rls : list (list Resource.t))
    (P : gmap string (gmap string Z)) (n : nat) w :
  chrome_capture (captures w) url = inr (hars n) ->
  one_run (rls, P) n w
  = (Ok (match resources_of n with
         | [] => (rls, P)
         | _ :: _ => (rls ++ [set_new (resources_of n)],
                      count_pairs (resources_of n) P)
         end),
     mkWorld (log w ++ logged n) (stdout w) (fetched w)
             (S (captures w))).
Proof.
  intros Hcap. unfold capture_run, run_log.
  rewrite bind_eq. cbn [emit]. rewrite bind_eq.
  unfold capture_har at 1. cbn [captures]. rewrite Hcap.
  fold (resources_of n). destruct (resources_of n) as [|r rl] eqn:Hn.
  - rewrite bind_eq. cbn. rewrite <- app_assoc. reflexivity.
  - rewrite bind_eq. cbn [emit]. rewrite bind_eq, count_positions_ok.
    cbn. rewrite <- app_assoc. reflexivity.
Qed.

(** One run whose capture raises. *)
Lemma capture_run_raise (vars : list (list Resource.t)
                                * gmap string (gmap string Z))
    (n : nat) (e : PyExn) w :
  chrome_capture (captures w) url = inl e ->
  fst (one_run vars n w) = Raise e.
Proof.
  intros Hcap. destruct vars as [rls P]. unfold capture_run.
  rewrite bind_eq. cbn [emit]. rewrite bind_eq.
  unfold capture_har at 1. cbn [captures]. rewrite Hcap. reflexivity.
Qed.

Lemma capture_runs_from (m k : nat) (rls : list (list Resource.t))
    (P : gmap string (gmap string Z)) w :
  (forall n, (n < m)%nat ->
             chrome_capture (captures w + n) url = inr (hars (k + n))) ->
  for_fold (seq k m) (rls, P) one_run w
  = (Ok (rls ++ (set_new <$> successful k m),
         fold_left (fun d run => count_pairs run d) (successful k m) P),
     mkWorld (log w ++ List.flat_map logged (seq k m)) (stdout w)
             (fetched w) (captures w + m)).
Proof.
  revert k rls P w. induction m as [|m IH]; intros k rls P w Hcap.
  - cbn. rewrite !app_nil_r, Nat.add_0_r. now destruct w.
  - cbn [seq]. rewrite for_fold_cons, capture_run_ok.
    2:{ specialize (Hcap O ltac:(lia)).
        now rewrite !Nat.add_0_r in Hcap. }
    rewrite successful_from_S. cbn [List.flat_map].
    destruct (resources_of k) as [|r rl] eqn:Hk.
    + rewrite IH.
      2:{ intros n Hn. cbn [captures]. specialize (Hcap (S n) ltac:(lia)).
          now rewrite !Nat.add_succ_r in Hcap. }
      cbn [log stdout fetched captures].
      rewrite <- app_assoc, Nat.add_succ_r. reflexivity.
    + rewrite IH.
      2:{ intros n Hn. cbn [captures]. specialize (Hcap (S n) ltac:(lia)).
          now rewrite !Nat.add_succ_r in Hcap. }
      cbn [log stdout fetched captures fmap list_fmap fold_left].
      rewrite <- !app_assoc, Nat.add_succ_r. reflexivity.
Qed.

(** The first capture that raises ends the loop with its exception. *)
Lemma capture_runs_raise (m k j : nat) (e : PyExn)
    (vars : list (list Resource.t) * gmap string (gmap string Z)) w :
  (j < m)%nat ->
  (forall n, (n < j)%nat ->
             chrome_capture (captures w + n) url = inr (hars (k + n))) ->
  chrome_capture (captures w + j) url = inl e ->
  fst (for_fold (seq k m) vars one_run w) = Raise e.
Proof.
  revert k j vars w. induction m as [|m IH]; intros k j vars w Hj Hok He;
    [lia|].
  cbn [seq]. rewrite for_fold_cons. destruct j as [|j].
  - rewrite Nat.add_0_r in He.
    pose proof (capture_run_raise vars k e w He) as Hr.
    destruct (one_run vars k w) as [[v|e'] w']; cbn in Hr;
      [discriminate|]. exact Hr.
  - destruct vars as [rls P]. rewrite capture_run_ok.
    2:{ specialize (Hok O ltac:(lia)).
        now rewrite !Nat.add_0_r in Hok. }
    apply (IH (S k) j); [lia|..]; cbn [captures].
    + intros n Hn. specialize (Hok (S n) ltac:(lia)).
      now rewrite !Nat.add_succ_r in Hok.
    + now rewrite Nat.add_succ_r in He.
Qed.
End CaptureLoop.

(** ** find_url_stable_set when every capture returns *)

Section StableSetFacts.
Context {set_order : SetOrder} {sorter : ListSort}.
Variable har_entries_to_resources : list HarEntry.t -> list Resource.t.
Variable chrome_capture : nat -> string -> PyExn + Har.t.
Variable hars : nat -> Har.t.
Variable url : string.

Local Abbreviation successful :=
  (successful_runs har_entries_to_resources hars).
Local Abbreviation positions :=
  (fold_left (fun d run => count_pairs run d) successful ∅).

Lemma find_url_stable_set_returns w :
  (forall n, (n < STABLE_SET_NUM_RUNS)%nat ->
             chrome_capture (captures w + n) url = inr (hars n)) ->
  find_url_stable_set har_entries_to_resources chrome_capture url w
  = (Ok (list_sort
           (cmp_to_key_lt (stable_set_cmp positions (set_new <$> successful)))
           (common_resources (set_new <$> successful))),
     mkWorld
       (log w
        ++ List.flat_map (run_log har_entries_to_resources hars url)
                         (seq 0 STABLE_SET_NUM_RUNS)
        ++ [mkLog "find_url_stable_set" DEBUG "resource list lengths"
              [("resource_lens",
                VInts (map (fun s => Z.of_nat (length s))
                           (set_new <$> successful)))]])
       (stdout w) (fetched w) (captures w + STABLE_SET_NUM_RUNS)).
Proof.
  intros Hcap. unfold find_url_stable_set, capture_runs.
  rewrite bind_eq.
  rewrite (capture_runs_from har_entries_to_resources chrome_capture hars).
  2:{ intros n Hn. now apply Hcap. }
  rewrite bind_eq. cbn [emit ret log stdout fetched captures app].
  rewrite <- app_assoc. reflexivity.
Qed.

Lemma elem_of_successful_runs (run : list Resource.t) :
  run ∈ successful <->
  exists n, (n < STABLE_SET_NUM_RUNS)%nat /\
            run = run_resources har_entries_to_resources hars n /\
            run <> [].
Proof.
  unfold successful_runs, successful_from.
  rewrite list_elem_of_filter, list_elem_of_fmap. split.
  - intros [Hne (n & -> & Hn)]. apply elem_of_seq in Hn.
    exists n. repeat split; [lia|exact Hne].
  - intros (n & Hn & -> & Hne). split; [exact Hne|].
    exists n. split; [reflexivity|]. apply elem_of_seq. lia.
Qed.

Lemma common_successful_urls (u : string) :
  u ∈ urls (common_resources (set_new <$> successful)) <->
  successful <> [] /\ forall run, run ∈ successful -> u ∈ urls run.
Proof.
  rewrite common_resources_urls. split.
  - intros [Hne Hall]. split.
    + intros Hnil. apply Hne. now rewrite Hnil.
    + intros run Hrun. apply set_new_urls, Hall.
      apply list_elem_of_fmap. eauto.
  - intros [Hne Hall]. split.
    + intros Hnil. apply fmap_nil_inv in Hnil. contradiction.
    + intros s Hs. apply list_elem_of_fmap in Hs.
      destruct Hs as (run & -> & Hrun). apply set_new_urls. auto.
Qed.
End StableSetFacts.

(** ** find_url_stable_set: the claims *)

(** C3: when the ten captures return, the function returns a list without
    repeated urls whose urls are exactly those present in every run that
    produced at least one resource; runs without resources take no part (if
    no run produced any, the list is empty); and every returned resource is
    one of the resources of such a run. *)
Theorem find_url_stable_set_intersection :
  forall (set_order : SetOrder) (sorter : ListSort)
         (har_entries_to_resources : list HarEntry.t -> list Resource.t)
         (chrome_capture : nat -> string -> PyExn + Har.t)
         (hars : nat -> Har.t) (url : string) (w : World),
    (forall n, (n < STABLE_SET_NUM_RUNS)%nat ->
               chrome_capture (captures w + n)%nat url = inr (hars n)) ->
    exists out w',
      find_url_stable_set har_entries_to_resources chrome_capture url w
      = (Ok out, w') /\
      NoDup (urls out) /\
      (forall u,
          u ∈ urls out <->
          (exists n, (n < STABLE_SET_NUM_RUNS)%nat /\
                     run_resources har_entries_to_resources hars n <> []) /\
          (forall n, (n < STABLE_SET_NUM_RUNS)%nat ->
                     run_resources har_entries_to_resources hars n <> [] ->
                     u ∈ urls (run_resources har_entries_to_resources
                                             hars n)))
      /\
      (forall r,
          r ∈ out ->
          exists n, (n < STABLE_SET_NUM_RUNS)%nat /\
                    run_resources har_entries_to_resources hars n <> [] /\
                    r ∈ run_resources har_entries_to_resources hars n).
Proof.
  intros set_order sorter conv chrome_capture hars url w Hcap.
  eexists _, _. split.
  { now apply (find_url_stable_set_returns conv chrome_capture hars). }
  split; [|split].
  - unfold urls. rewrite list_sort_perm. apply common_resources_NoDup.
  - intros u. unfold urls at 1. rewrite list_sort_perm.
    fold (urls (common_resources (set_new <$> successful_runs conv hars))).
    rewrite common_successful_urls. split.
    + intros [Hne Hall]. split.
      * destruct (successful_runs conv hars) as [|run runs] eqn:Hruns;
          [congruence|].
        assert (Hin : run ∈ successful_runs conv hars)
          by (rewrite Hruns; apply elem_of_cons; now left).
        apply elem_of_successful_runs in Hin.
        destruct Hin as (n & Hn & -> & Hnn). eauto.
      * intros n Hn Hnn. apply Hall, elem_of_successful_runs. eauto.
    + intros [(n & Hn & Hnn) Hall]. split.
      * intros Hnil.
        assert (Hin : run_resources conv hars n ∈ successful_runs conv hars)
          by (apply elem_of_successful_runs; eauto).
        rewrite Hnil in Hin. now apply elem_of_nil in Hin.
      * intros run Hrun. apply elem_of_successful_runs in Hrun.
        destruct Hrun as (m & Hm & -> & Hmm). now apply Hall.
  - intros r Hr. rewrite list_sort_perm in Hr.
    apply common_resources_elem in Hr. destruct Hr as (s & Hs & Hr).
    apply list_elem_of_fmap in Hs. destruct Hs as (run & -> & Hrun).
    apply set_new_elem in Hr. apply elem_of_successful_runs in Hrun.
    destruct Hrun as (n & Hn & -> & Hnn). eauto.
Qed.

Lemma find_url_stable_set_intersection_witness :
  exists out w',
    find_url_stable_set (set_order := salted_order 0) (sorter := short_sort)
      simple_resources voting_capture "http://example.com/" world0
    = (Ok out, w') /\
    urls out = ["/a"; "/c"; "/b"].
Proof.
  destruct (find_url_stable_set_intersection (salted_order 0) short_sort
              simple_resources voting_capture voting_har
              "http://example.com/" world0) as (out & w' & Hfind & _).
  - intros n Hn. reflexivity.
  - exists out, w'. split; [exact Hfind|].
    vm_compute in Hfind. injection Hfind as <- _. reflexivity.
Defined.

(** C2, as stated, fails under both readings of "more negative than
    [len(successful_runs) // 2]": with four successful runs, "/a" stands
    before "/b" in three of them and the comparison is negative, while
    [P[b][a] - P[a][b] = -2] is not below [-2]; "/a" stands before "/c" in
    two and the comparison is 0, while [P[c][a] - P[a][c] = 0] is below 2. *)
Lemma stable_set_cmp_ignores_reverse_votes :
  exists resource_lists pos_dict w',
    capture_runs (set_order := salted_order 0) simple_resources
                 voting_capture "http://example.com/" world0
    = (Ok (resource_lists, pos_dict), w') /\
    ~ margin_rule_negated pos_dict resource_lists /\
    ~ margin_rule_plain pos_dict resource_lists.
Proof.
  eexists _, _, _. split.
  - apply (capture_runs_from simple_resources voting_capture voting_har).
    intros n Hn. reflexivity.
  - pose (res := fun u => Resource.mk u OTHER 0 0 0 false).
    split; intros Hrule.
    + specialize (Hrule (res "/a") (res "/b")).
      unfold cmp_to_key_lt, stable_set_cmp in Hrule.
      rewrite !pos_get_positions, length_app, length_fmap in Hrule.
      vm_compute in Hrule. destruct Hrule as [Hrule _].
      discriminate (Hrule eq_refl).
    + specialize (Hrule (res "/a") (res "/c")).
      unfold cmp_to_key_lt, stable_set_cmp in Hrule.
      rewrite !pos_get_positions, length_app, length_fmap in Hrule.
      vm_compute in Hrule. destruct Hrule as [_ Hrule].
      discriminate (Hrule eq_refl).
Qed.

(** C2, amended: the list is sorted with the comparison
    [len(resource_lists) // 2 - P[a][b]], where [P[a][b]] is the number of
    times a resource with url [a] stood before one with url [b] over the
    runs that produced resources; it is negative (a before b) exactly when
    that number exceeds half the number of those runs, rounded down.
    [P[b][a]] is not consulted. *)
Theorem find_url_stable_set_comparator :
  forall (set_order : SetOrder) (sorter : ListSort)
         (har_entries_to_resources : list HarEntry.t -> list Resource.t)
         (chrome_capture : nat -> string -> PyExn + Har.t)
         (hars : nat -> Har.t) (url : string) (w : World),
    (forall n, (n < STABLE_SET_NUM_RUNS)%nat ->
               chrome_capture (captures w + n)%nat url = inr (hars n)) ->
    let runs := successful_runs har_entries_to_resources hars in
    exists resource_lists pos_dict w',
      capture_runs har_entries_to_resources chrome_capture url w
      = (Ok (resource_lists, pos_dict), w') /\
      fst (find_url_stable_set har_entries_to_resources chrome_capture url w)
      = Ok (list_sort (cmp_to_key_lt (stable_set_cmp pos_dict resource_lists))
                      (common_resources resource_lists)) /\
      length resource_lists = length runs /\
      (forall a b, pos_get pos_dict a b = votes runs a b) /\
      (forall a b : Resource.t,
          stable_set_cmp pos_dict resource_lists a b
          = Z.of_nat (length runs) / 2
            - votes runs (Resource.url a) (Resource.url b)) /\
      (forall a b : Resource.t,
          cmp_to_key_lt (stable_set_cmp pos_dict resource_lists) a b = true
          <-> votes runs (Resource.url a) (Resource.url b)
              > Z.of_nat (length runs) / 2).
Proof.
  intros set_order sorter conv chrome_capture hars url w Hcap runs.
  eexists _, _, _. split.
  { apply (capture_runs_from conv chrome_capture hars).
    intros n Hn. now apply Hcap. }
  split.
  { rewrite (find_url_stable_set_returns conv chrome_capture hars)
      by exact Hcap. reflexivity. }
  assert (Hlen : length ([] ++ (set_new <$> successful_from conv hars 0
                                             STABLE_SET_NUM_RUNS))
                 = length runs) by apply length_fmap.
  assert (Hpos : forall a b,
             pos_get (fold_left (fun d run => count_pairs run d)
                        (successful_from conv hars 0 STABLE_SET_NUM_RUNS) ∅)
                     a b = votes runs a b).
  { intros a b. rewrite pos_get_positions. reflexivity. }
  split; [exact Hlen|]. split; [exact Hpos|]. split.
  - intros a b. unfold stable_set_cmp. rewrite Hpos, Hlen. lia.
  - intros a b. unfold cmp_to_key_lt, stable_set_cmp.
    rewrite Hpos, Hlen, Z.ltb_lt. lia.
Qed.

Lemma find_url_stable_set_comparator_witness :
  fst (find_url_stable_set (set_order := salted_order 0)
         (sorter := short_sort) simple_resources voting_capture
         "http://example.com/" world0)
  = Ok [Resource.mk "/a" OTHER 1200 2 0 false;
        Resource.mk "/c" OTHER 1200 0 0 false;
        Resource.mk "/b" OTHER 1200 1 0 false] /\
  votes (successful_runs simple_resources voting_har) "/a" "/b" = 3 /\
  votes (successful_runs simple_resources voting_har) "/b" "/a" = 1.
Proof.
  destruct (find_url_stable_set_comparator (salted_order 0) short_sort
              simple_resources voting_capture voting_har
              "http://example.com/" world0)
    as (rls & P & w' & Hruns & Hfind & _).
  - intros n Hn. reflexivity.
  - split; [|split; reflexivity].
    vm_compute. reflexivity.
Defined.

(** ** find_url_stable_set: failing and empty runs *)

Lemma bind_raise {A B} (c : M A) (k : A -> M B) (e : PyExn) w :
  fst (c w) = Raise e -> fst (bind c k w) = Raise e.
Proof.
  intros Hc. rewrite bind_eq. destruct (c w) as [[a|e'] w']; cbn in Hc |- *;
    [discriminate|congruence].
Qed.






(** ** find_url_stable_set: reproducibility *)

Lemma for_fold_ext {A St} (l : list A) (s : St)
    (body1 body2 : St -> A -> M St) w :
  (forall s x w, body1 s x w = body2 s x w) ->
  for_fold l s body1 w = for_fold l s body2 w.
Proof.
  intros Hbody. revert s w. induction l as [|x l IH]; intros s w;
    [reflexivity|].
  rewrite !for_fold_cons, Hbody.
  destruct (body2 s x w) as [[s'|e] w']; [apply IH|reflexivity].
Qed.

Section SameSetOrder.
Variables o1 o2 : SetOrder.
Hypothesis same_iter : forall l, @set_iter o1 l = @set_iter o2 l.

Lemma set_new_same (l : list Resource.t) : @set_new o1 l = @set_new o2 l.
Proof. apply same_iter. Qed.

Lemma set_intersection_same (so other : list Resource.t) :
  @set_intersection o1 so other = @set_intersection o2 so other.
Proof.
  unfold set_intersection.
  destruct (length so <? length other)%nat; apply set_new_same.
Qed.

Lemma common_resources_same (rls : list (list Resource.t)) :
  @common_resources o1 rls = @common_resources o2 rls.
Proof.
  destruct rls as [|so args]; [reflexivity|].
  unfold common_resources, set_intersection_multi.
  destruct args as [|a args]; [apply set_new_same|].
  generalize (a :: args) as l. intros l. revert so.
  induction l as [|b l IH]; intros so; cbn [fold_left]; [reflexivity|].
  rewrite set_intersection_same. apply IH.
Qed.

Lemma find_url_stable_set_same (sorter : ListSort)
    (har_entries_to_resources : list HarEntry.t -> list Resource.t)
    (chrome_capture : nat -> string -> PyExn + Har.t) (url : string) w :
  @find_url_stable_set o1 sorter har_entries_to_resources chrome_capture
                       url w
  = @find_url_stable_set o2 sorter har_entries_to_resources chrome_capture
                         url w.
Proof.
  unfold find_url_stable_set, capture_runs. rewrite !bind_eq.
  rewrite (for_fold_ext _ _
             (@capture_run o1 har_entries_to_resources chrome_capture url)
             (@capture_run o2 har_entries_to_resources chrome_capture url)).
  - destruct (for_fold _ _ _ w) as [[[rls P]|e] w']; [|reflexivity].
    rewrite !bind_eq. cbn [emit]. unfold ret.
    now rewrite common_resources_same.
  - intros [rls P] n w1. unfold capture_run. rewrite !bind_eq.
    cbn [emit]. rewrite !bind_eq.
    destruct (capture_har chrome_capture url _) as [[har|e] w2];
      [|reflexivity].
    destruct (har_entries_to_resources _) as [|r rl]; [reflexivity|].
    rewrite !bind_eq. cbn [emit]. rewrite !bind_eq.
    destruct (count_positions _ _ _) as [[P'|e] w3]; [|reflexivity].
    unfold ret. now rewrite set_new_same.
Qed.
End SameSetOrder.

(** Either the first [m] captures all return or there is a first one that
    raises. *)
Lemma captures_return_or_raise (capture : nat -> PyExn + Har.t) (m : nat) :
  (forall n, (n < m)%nat -> exists har, capture n = inr har) \/
  (exists j e, (j < m)%nat /\
               (forall n, (n < j)%nat -> exists har, capture n = inr har) /\
               capture j = inl e).
Proof.
  induction m as [|m [IH|(j & e & Hj & Hok & He)]].
  - left. intros n Hn. lia.
  - destruct (capture m) as [e|har] eqn:Hm.
    + right. exists m, e. auto.
    + left. intros n Hn. destruct (decide (n = m)) as [->|Hne]; [eauto|].
      apply IH. lia.
  - right. exists j, e. split; [lia|auto].
Qed.

Lemma har_or_empty_inr (outcome : PyExn + Har.t) :
  (exists har, outcome = inr har) -> outcome = inr (har_or_empty outcome).
Proof. intros [har ->]. reflexivity. Qed.

Lemma successful_sets_two_orders (o1 o2 : SetOrder)
    (runs : list (list Resource.t)) :
  Forall2 Permutation (@set_new o1 <$> runs) (@set_new o2 <$> runs) /\
  Forall (fun s => NoDup (urls s)) (@set_new o1 <$> runs).
Proof.
  induction runs as [|run runs [IH1 IH2]]; cbn [fmap list_fmap].
  - split; constructor.
  - split; constructor; auto.
    + apply set_new_two_orders.
    + apply set_new_NoDup.
Qed.

(** C6, as stated, fails: two interpreter processes whose string hashes are
    salted differently return the two racing resources in different orders
    from the same ten captures (the comparison ties, and the sort leaves
    the order in which the set was iterated). *)
Lemma find_url_stable_set_order_depends_on_hash_salt :
  fst (find_url_stable_set (set_order := salted_order 0)
         (sorter := short_sort) simple_resources racing_capture
         "http://example.com/" world0)
  <> fst (find_url_stable_set (set_order := salted_order 1)
            (sorter := short_sort) simple_resources racing_capture
            "http://example.com/" world0).
Proof. vm_compute. discriminate. Qed.

(** C6, amended: two invocations on identical capture runs return identical
    lists, element for element and in the same order, when the two
    interpreters iterate sets in the same order; whatever the iteration
    orders, both invocations raise the same exception or return the same
    resources, one list being a permutation of the other. *)
Theorem find_url_stable_set_reproducible :
  forall (o1 o2 : SetOrder) (sorter : ListSort)
         (har_entries_to_resources : list HarEntry.t -> list Resource.t)
         (chrome_capture : nat -> string -> PyExn + Har.t) (url : string)
         (w : World),
    ((forall l, @set_iter o1 l = @set_iter o2 l) ->
     @find_url_stable_set o1 sorter har_entries_to_resources chrome_capture
                          url w
     = @find_url_stable_set o2 sorter har_entries_to_resources chrome_capture
                            url w) /\
    match
      fst (@find_url_stable_set o1 sorter har_entries_to_resources
                                chrome_capture url w),
      fst (@find_url_stable_set o2 sorter har_entries_to_resources
                                chrome_capture url w)
    with
    | Ok out1, Ok out2 => Permutation out1 out2
    | Raise e1, Raise e2 => e1 = e2
    | _, _ => False
    end.
Proof.
  intros o1 o2 sorter conv chrome_capture url w. split.
  { intros Hsame. now apply find_url_stable_set_same. }
  pose (hars := fun n =>
                  har_or_empty (chrome_capture (captures w + n)%nat url)).
  destruct (captures_return_or_raise
              (fun n => chrome_capture (captures w + n)%nat url)
              STABLE_SET_NUM_RUNS) as [Hall|(j & e & Hj & Hok & He)].
  - assert (Hcap : forall n, (n < STABLE_SET_NUM_RUNS)%nat ->
                     chrome_capture (captures w + n)%nat url = inr (hars n)).
    { intros n Hn. apply har_or_empty_inr. now apply Hall. }
    rewrite !(find_url_stable_set_returns conv chrome_capture hars)
      by exact Hcap.
    cbn [fst]. rewrite !list_sort_perm.
    destruct (successful_sets_two_orders o1 o2 (successful_runs conv hars))
      as [H2 Hnd].
    now apply common_resources_two_orders.
  - assert (Hok' : forall n, (n < j)%nat ->
                     chrome_capture (captures w + n)%nat url = inr (hars n)).
    { intros n Hn. apply har_or_empty_inr. now apply Hok. }
    assert (Hraise : forall o : SetOrder,
               fst (@find_url_stable_set o sorter conv chrome_capture url w)
               = Raise e).
    { intros o. unfold find_url_stable_set. apply bind_raise.
      unfold capture_runs.
      apply (capture_runs_raise conv chrome_capture hars url
               STABLE_SET_NUM_RUNS 0 j); assumption. }
    rewrite !Hraise. reflexivity.
Qed.

Lemma find_url_stable_set_reproducible_witness :
  find_url_stable_set (set_order := salted_order 0) (sorter := short_sort)
    simple_resources racing_capture "http://example.com/" world0
  = find_url_stable_set (set_order := salted_order 0) (sorter := short_sort)
      simple_resources racing_capture "http://example.com/" world0 /\
  Permutation
    [Resource.mk "/a" OTHER 1200 1 0 false;
     Resource.mk "/b" OTHER 1200 0 0 false]
    [Resource.mk "/b" OTHER 1200 0 0 false;
     Resource.mk "/a" OTHER 1200 1 0 false].
Proof.
  split.
  - apply (proj1 (find_url_stable_set_reproducible
                    (salted_order 0) (salted_order 0) short_sort
                    simple_resources racing_capture "http://example.com/"
                    world0)).
    intros l. reflexivity.
  - exact (proj2 (find_url_stable_set_reproducible
                    (salted_order 0) (salted_order 1) short_sort
                    simple_resources racing_capture "http://example.com/"
                    world0)).
Defined.

(** ** get_page_links *)

Section PageLinksFacts.
Variable http_get : nat -> string -> PyExn + Response.
Variable ElementTree_fromstring : string -> option Element.
Variable Url_domain : string -> string.

Lemma raise_for_status_error (page : Response) w :
  http_error page ->
  raise_for_status page w = (Raise (RequestException "HTTPError"), w).
Proof.
  unfold http_error, raise_for_status. intros [Hlo Hhi].
  apply Z.leb_le in Hlo. apply Z.ltb_lt in Hhi. now rewrite Hlo, Hhi.
Qed.

Lemma raise_for_status_ok (page : Response) w :
  ~ http_error page -> raise_for_status page w = (Ok tt, w).
Proof.
  unfold http_error, raise_for_status. intros Hok.
  destruct (400 <=? status_code page) eqn:Hlo;
    destruct (status_code page <? 600) eqn:Hhi; try reflexivity.
  apply Z.leb_le in Hlo. apply Z.ltb_lt in Hhi. lia.
Qed.

(** The request raises a [RequestException]: the handler returns. *)
Lemma fetch_page_request_exception ctx url (detail : string) w :
  http_get (length (fetched w)) url = inl (RequestException detail) ->
  fst (fetch_page http_get ctx url w) = Ok None.
Proof.
  intros Hget. unfold fetch_page, try_except.
  rewrite bind_eq. cbn [emit]. rewrite bind_eq.
  unfold requests_get at 1. cbn [fetched]. rewrite Hget. reflexivity.
Qed.

(** The response has a 4xx or 5xx status: the handler returns. *)
Lemma fetch_page_http_error ctx url (page : Response) w :
  http_get (length (fetched w)) url = inr page -> http_error page ->
  fst (fetch_page http_get ctx url w) = Ok None.
Proof.
  intros Hget Herr. unfold fetch_page, try_except.
  rewrite bind_eq. cbn [emit]. rewrite bind_eq.
  unfold requests_get at 1. cbn [fetched]. rewrite Hget.
  rewrite bind_eq, raise_for_status_error by exact Herr. reflexivity.
Qed.

Lemma fetch_page_ok ctx url (page : Response) w :
  http_get (length (fetched w)) url = inr page -> ~ http_error page ->
  fetch_page http_get ctx url w
  = (Ok (Some (text page)),
     mkWorld (log w ++ [mkLog "get_page_links" INFO "fetching page"
                              (ctx ++ [("url", VStr url)])])
             (stdout w) (fetched w ++ [url]) (captures w)).
Proof.
  intros Hget Hok. unfold fetch_page, try_except.
  rewrite bind_eq. cbn [emit]. rewrite bind_eq.
  unfold requests_get at 1. cbn [fetched]. rewrite Hget.
  rewrite bind_eq, raise_for_status_ok by exact Hok. reflexivity.
Qed.

Lemma parse_page_error ctx (page_text : string) w :
  ElementTree_fromstring page_text = None ->
  fst (parse_page ElementTree_fromstring ctx page_text w) = Ok None.
Proof.
  intros Hparse. unfold parse_page, try_except, fromstring.
  rewrite bind_eq. cbn [emit]. rewrite bind_eq, Hparse. reflexivity.
Qed.

Lemma parse_page_ok ctx (page_text : string) (root : Element) w :
  ElementTree_fromstring page_text = Some root ->
  parse_page ElementTree_fromstring ctx page_text w
  = (Ok (Some root),
     mkWorld (log w
              ++ [mkLog "get_page_links" DEBUG "parsing http response"
                        (ctx ++ [("length",
                                  VInt (Z.of_nat
                                          (String.length page_text)))])])
             (stdout w) (fetched w) (captures w)).
Proof.
  intros Hparse. unfold parse_page, try_except, fromstring.
  rewrite bind_eq. cbn [emit]. rewrite bind_eq, Hparse. reflexivity.
Qed.

Lemma bind_ok_fst {A B} (c : M A) (k : A -> M B) (a : A) (b : B) w :
  fst (c w) = Ok a -> (forall w', k a w' = (Ok b, w')) ->
  fst (bind c k w) = Ok b.
Proof.
  intros Hc Hk. rewrite bind_eq. destruct (c w) as [[a'|e] w'];
    cbn in Hc; [|discriminate].
  injection Hc as ->. now rewrite Hk.
Qed.

(** A loop over links of which one has no [href] ends with an exception:
    an earlier link raises, or the link itself does. *)
Lemma visit_links_raise recurse ctx domain max_depth
    (parsed_links : list Element) (links : list string) w :
  (exists link, link ∈ parsed_links /\ Element_get link "href" = None) ->
  exists e,
    fst (for_fold parsed_links links
           (visit_link Url_domain recurse ctx domain max_depth) w)
    = Raise e.
Proof.
  revert links w. induction parsed_links as [|x l IH];
    intros links w (link & Hin & Hnone).
  - now apply elem_of_nil in Hin.
  - rewrite for_fold_cons.
    destruct (Element_get x "href") as [href|] eqn:Hx.
    + destruct (visit_link Url_domain recurse ctx domain max_depth links x w)
        as [[links'|e] w']; [|eauto].
      apply IH. exists link. split; [|exact Hnone].
      apply elem_of_cons in Hin. destruct Hin as [->|Hin]; [|exact Hin].
      congruence.
    + unfold visit_link. rewrite Hx. cbn. eauto.
Qed.
End PageLinksFacts.

(** C9: a call that fetches and parses a page with an [a] element without
    [href] ends with an exception, whatever the other links are. *)
Theorem get_page_links_raises_without_href :
  forall (http_get : nat -> string -> PyExn + Response)
         (ElementTree_fromstring : string -> option Element)
         (Url_domain : string -> string)
         (frames : nat) (url : string) (max_depth : Z) (w : World)
         (page : Response) (root link : Element),
    max_depth <> 0 ->
    http_get (length (fetched w)) url = inr page ->
    ~ http_error page ->
    ElementTree_fromstring (text page) = Some root ->
    link ∈ findall_a root ->
    Element_get link "href" = None ->
    exists e,
      fst (get_page_links http_get ElementTree_fromstring Url_domain
                          (S frames) url max_depth w)
      = Raise e.
Proof.
  intros http_get parse Url_domain frames url max_depth w page root link
         Hdepth Hget Hok Hparse Hin Hnone.
  cbn [get_page_links]. apply Z.eqb_neq in Hdepth. rewrite Hdepth.
  rewrite bind_eq, (fetch_page_ok http_get _ url page) by assumption.
  rewrite bind_eq, (parse_page_ok parse _ _ root) by assumption.
  rewrite bind_eq. cbn [emit].
  match goal with
  | |- context [bind (for_fold ?l ?s ?body) _ ?w0] =>
      destruct (visit_links_raise Url_domain
                  (get_page_links http_get parse Url_domain frames)
                  [("depth_left", VInt max_depth)] (Url_domain url)
                  max_depth l s w0) as [e He]
  end.
  { exists link. split; assumption. }
  exists e. now apply bind_raise.
Qed.

(** C10: with [max_depth = 0] the call returns the empty list and leaves the
    world as it was (nothing is fetched, nothing logged); when the request
    raises a [RequestException], or the response has a 4xx or 5xx status
    (for which [raise_for_status] raises), or the body does not parse, the
    call returns the empty list. *)
Theorem get_page_links_failure_returns_empty :
  forall (http_get : nat -> string -> PyExn + Response)
         (ElementTree_fromstring : string -> option Element)
         (Url_domain : string -> string)
         (frames : nat) (url : string) (max_depth : Z) (w : World),
    (max_depth = 0 ->
     get_page_links http_get ElementTree_fromstring Url_domain (S frames)
                    url max_depth w
     = (Ok [], w)) /\
    ((exists detail,
         http_get (length (fetched w)) url = inl (RequestException detail)) \/
     (exists page,
         http_get (length (fetched w)) url = inr page /\
         (http_error page \/ ElementTree_fromstring (text page) = None)) ->
     fst (get_page_links http_get ElementTree_fromstring Url_domain
                         (S frames) url max_depth w)
     = Ok []).
Proof.
  intros http_get parse Url_domain frames url max_depth w. split.
  - intros ->. reflexivity.
  - intros Hfail. cbn [get_page_links].
    destruct (max_depth =? 0); [reflexivity|].
    destruct Hfail as [[detail Hget]|(page & Hget & Hpage)].
    + eapply bind_ok_fst;
        [now apply (fetch_page_request_exception http_get _ url detail)|].
      reflexivity.
    + destruct (decide (http_error page)) as [Herr|Hok].
      * eapply bind_ok_fst;
          [now apply (fetch_page_http_error http_get _ url page)|].
        reflexivity.
      * destruct Hpage as [Herr|Hparse]; [contradiction|].
        rewrite bind_eq, (fetch_page_ok http_get _ url page) by assumption.
        eapply bind_ok_fst; [now apply parse_page_error|]. reflexivity.
Qed.

Lemma get_page_links_raises_without_href_witness :
  exists e,
    fst (get_page_links example_http_get example_fromstring example_domain
                        6 "http://example.com/" 1 world0)
    = Raise e.
Proof.
  apply (get_page_links_raises_without_href
           example_http_get example_fromstring example_domain 5
           "http://example.com/" 1 world0
           (mkResponse 200 front_page_text) front_page
           (mkElement "a" {["name" := "top"]} [])).
  - lia.
  - reflexivity.
  - unfold http_error. cbn. lia.
  - reflexivity.
  - apply list_elem_of_In. vm_compute. right. left. reflexivity.
  - reflexivity.
Defined.

Lemma get_page_links_failure_returns_empty_witness :
  get_page_links example_http_get example_fromstring example_domain 1
                 "http://example.com/" 0 world0
  = (Ok [], world0) /\
  fst (get_page_links example_http_get example_fromstring example_domain 1
                      "http://down.example.org/" 1 world0)
  = Ok [] /\
  fst (get_page_links example_http_get example_fromstring example_domain 1
                      "http://example.com/missing" 1 world0)
  = Ok [] /\
  fst (get_page_links example_http_get example_fromstring example_domain 1
                      "http://example.com/plain" 1 world0)
  = Ok [].
Proof.
  split; [|split; [|split]].
  - apply (proj1 (get_page_links_failure_returns_empty
                    example_http_get example_fromstring example_domain 0
                    "http://example.com/" 0 world0)).
    reflexivity.
  - apply (proj2 (get_page_links_failure_returns_empty
                    example_http_get example_fromstring example_domain 0
                    "http://down.example.org/" 1 world0)).
    left. exists "ConnectionError". reflexivity.
  - apply (proj2 (get_page_links_failure_returns_empty
                    example_http_get example_fromstring example_domain 0
                    "http://example.com/missing" 1 world0)).
    right. exists (mkResponse 404 "Not Found"). split; [reflexivity|].
    left. unfold http_error. cbn. lia.
  - apply (proj2 (get_page_links_failure_returns_empty
                    example_http_get example_fromstring example_domain 0
                    "http://example.com/plain" 1 world0)).
    right. exists (mkResponse 200 "plain text"). split; [reflexivity|].
    right. reflexivity.
Defined.

(** * Further properties of the code *)

(** ** The cache-time lookup *)

Lemma dict_comp_lookup {A} (key : A -> string) (value : A -> Z)
    (fs : list A) (d : gmap string Z) (k : string) :
  fold_left (fun d f => <[key f := value f]> d) fs d !! k
  = match last (value <$> filter (fun f => key f = k) fs) with
    | Some v => Some v
    | None => d !! k
    end.
Proof.
  revert d. induction fs as [|f fs IH]; intros d; [reflexivity|].
  cbn [fold_left]. rewrite IH.
  destruct (decide (key f = k)) as [Hk|Hk].
  - rewrite filter_cons_True by exact Hk. rewrite fmap_cons.
    destruct (filter (fun f => key f = k) fs) as [|g gs] eqn:Hfs.
    + cbn. rewrite <- Hk. apply lookup_insert_eq.
    + rewrite fmap_cons, last_cons_cons.
      destruct (last (value g :: (value <$> gs))) eqn:Hlast; [reflexivity|].
      apply last_None in Hlast. discriminate.
  - rewrite filter_cons_False by exact Hk.
    rewrite lookup_insert_ne by exact Hk. reflexivity.
Qed.

Lemma http_key_inj (s t : string) : "http://" +:+ s = "http://" +:+ t -> s = t.
Proof. intros H. now simplify_eq. Qed.

Lemma https_key_inj (s t : string) :
  "https://" +:+ s = "https://" +:+ t -> s = t.
Proof. intros H. now simplify_eq. Qed.

Lemma http_key_not_https (s t : string) : "http://" +:+ s <> "https://" +:+ t.
Proof. intros H. simplify_eq. Qed.

Lemma filter_key_ext (files : list File.t) (scheme s : string) :
  (forall a b, scheme +:+ a = scheme +:+ b -> a = b) ->
  filter (fun f => scheme +:+ File.host f +:+ File.uri f = scheme +:+ s) files
  = filter (fun f => File.host f +:+ File.uri f = s) files.
Proof.
  intros Hinj. apply list_filter_iff. intros f. split.
  - apply Hinj.
  - now intros ->.
Qed.

Lemma filter_none {A} (P : A -> Prop) `{!forall x, Decision (P x)}
    (l : list A) :
  (forall x, ~ P x) -> filter P l = [].
Proof.
  intros Hnone. induction l as [|x l IH]; [reflexivity|].
  now rewrite filter_cons_False by apply Hnone.
Qed.

(** X1: a file is found under its [http://] and its [https://] url alike,
    and when several listed files have the same host and uri the last one
    gives the cache time. *)
Theorem cache_times_of_lookup :
  forall (filestore : FileStore.t) (s : string),
    cache_times_of filestore !! ("http://" +:+ s)
    = last_cache_time (FileStore.cacheable_files filestore) s /\
    cache_times_of filestore !! ("https://" +:+ s)
    = last_cache_time (FileStore.cacheable_files filestore) s.
Proof.
  intros filestore s. unfold cache_times_of, dict_unpack2, dict_comp.
  unfold last_cache_time.
  set (files := FileStore.cacheable_files filestore). split.
  - rewrite lookup_union_r.
    + rewrite dict_comp_lookup, lookup_empty.
      rewrite (filter_key_ext files "http://" s http_key_inj).
      now destruct (last _).
    + rewrite dict_comp_lookup, lookup_empty.
      rewrite filter_none; [reflexivity|].
      intros f Heq. symmetry in Heq. now apply http_key_not_https in Heq.
  - rewrite lookup_union_l.
    + rewrite dict_comp_lookup, lookup_empty.
      rewrite (filter_key_ext files "https://" s https_key_inj).
      now destruct (last _).
    + rewrite dict_comp_lookup, lookup_empty.
      rewrite filter_none; [reflexivity|].
      intros f Heq. now apply http_key_not_https in Heq.
Qed.

(** X2: a url that does not start with [http://] or [https://] (another
    scheme, upper case, a relative url) is never in the lookup, and a url
    whose host and uri are those of no listed file is not either: the
    cache time looked up for them is 0. *)
Theorem cache_times_of_miss :
  forall (filestore : FileStore.t) (url : string),
    ((forall s, url <> "http://" +:+ s /\ url <> "https://" +:+ s) \/
     (forall f, f ∈ FileStore.cacheable_files filestore ->
                url <> "http://" +:+ File.host f +:+ File.uri f /\
                url <> "https://" +:+ File.host f +:+ File.uri f)) ->
    cache_times_of filestore !! url = None /\
    dict_get (cache_times_of filestore) url 0 = 0.
Proof.
  intros filestore url Hmiss.
  assert (Hnone : cache_times_of filestore !! url = None).
  { unfold cache_times_of, dict_unpack2, dict_comp.
    apply lookup_union_None. split.
    - rewrite dict_comp_lookup, lookup_empty.
      destruct (filter _ _) as [|f fs] eqn:Hf; [reflexivity|].
      assert (Hin : f ∈ filter
                      (fun f => "https://" +:+ File.host f +:+ File.uri f
                                = url)
                      (FileStore.cacheable_files filestore))
        by (rewrite Hf; apply elem_of_cons; now left).
      apply list_elem_of_filter in Hin. destruct Hin as [Heq Hin].
      destruct Hmiss as [Hs|Hfiles].
      + destruct (Hs (File.host f +:+ File.uri f)). congruence.
      + destruct (Hfiles f Hin). congruence.
    - rewrite dict_comp_lookup, lookup_empty.
      destruct (filter _ _) as [|f fs] eqn:Hf; [reflexivity|].
      assert (Hin : f ∈ filter
                      (fun f => "http://" +:+ File.host f +:+ File.uri f
                                = url)
                      (FileStore.cacheable_files filestore))
        by (rewrite Hf; apply elem_of_cons; now left).
      apply list_elem_of_filter in Hin. destruct Hin as [Heq Hin].
      destruct Hmiss as [Hs|Hfiles].
      + destruct (Hs (File.host f +:+ File.uri f)). congruence.
      + destruct (Hfiles f Hin). congruence. }
  split; [exact Hnone|]. unfold dict_get. now rewrite Hnone.
Qed.

Lemma cache_times_of_miss_witness :
  cache_times_of (example_filestore "record") !! "//example.com/app.js"
  = None /\
  dict_get (cache_times_of (example_filestore "record"))
           "//example.com/app.js" 0 = 0.
Proof.
  apply (cache_times_of_miss (example_filestore "record")
           "//example.com/app.js").
  left. intros s. split; intros H; simplify_eq.
Defined.

(** ** print_cache_times *)



(** X3: the command reads [args.website] and [args.max_depth] before
    anything else, although it declares only [--from_manifest]: on
    arguments without one of them it raises [AttributeError] and has done
    nothing (no log record, no manifest read, no line printed). *)
Theorem print_cache_times_needs_website :
  forall (FileStore_open : string -> FileStore.t)
         (load_file : LogValue -> PyExn + EnvironmentConfig.t)
         (args : gmap string LogValue) (w : World),
    args !! "website" = None \/ args !! "max_depth" = None ->
    exists detail,
      print_cache_times FileStore_open load_file args w
      = (Raise (AttributeError detail), w).
Proof.
  intros FileStore_open load_file args w Hmissing.
  unfold print_cache_times. rewrite bind_eq. unfold getattr at 1.
  destruct (args !! "website") as [website|] eqn:Hw.
  - destruct Hmissing as [Hmissing|Hmissing]; [discriminate|].
    cbn [ret]. rewrite bind_eq. unfold getattr at 1. rewrite Hmissing.
    eexists. reflexivity.
  - eexists. reflexivity.
Qed.

Lemma print_cache_times_needs_website_witness :
  exists detail,
    print_cache_times example_filestore example_manifest declared_args world0
    = (Raise (AttributeError detail), world0).
Proof.
  apply (print_cache_times_needs_website example_filestore example_manifest
           declared_args world0).
  left. reflexivity.
Defined.



(** ** get_har_resources *)

Lemma critical_work_loop (critical_requests : gset string)
    (entries : list HarEntry.t) w :
  for_each entries (fun res =>
    if bool_decide (HarEntry.url (HarEntry.request res) ∈ critical_requests)
    then
      print "doing some critical work" ;;
      expr_stmt (HarEntry._replace_critical res true)
    else ret tt) w
  = (Ok tt,
     mkWorld (log w)
       (stdout w
        ++ replicate
             (length (filter (fun res => HarEntry.url (HarEntry.request res)
                                         ∈ critical_requests) entries))
             "doing some critical work")
       (fetched w) (captures w)).
Proof.
  unfold for_each. revert w. induction entries as [|res l IH]; intros w.
  - cbn. rewrite app_nil_r. now destruct w.
  - rewrite for_fold_cons.
    destruct (decide (HarEntry.url (HarEntry.request res)
                      ∈ critical_requests)) as [Hin|Hin].
    + rewrite bool_decide_eq_true_2 by exact Hin.
      rewrite filter_cons_True by exact Hin.
      rewrite bind_eq. cbn [print expr_stmt ret]. rewrite IH.
      cbn [log stdout fetched captures length replicate].
      rewrite <- app_assoc. reflexivity.
    + rewrite bool_decide_eq_false_2 by exact Hin.
      rewrite filter_cons_False by exact Hin.
      cbn [ret]. apply IH.
Qed.

(** X5: with [extract_critical_requests], when both captures return, the
    resources returned are those the call without the option returns for
    the same primary capture; the option costs a second capture and prints
    "doing some critical work" once for every entry of the primary capture
    whose url the comparison capture marks critical. *)
Theorem get_har_resources_with_comparison :
  forall (har_entries_to_resources : list HarEntry.t -> list Resource.t)
         (replay_capture : nat -> string -> bool -> PyExn + Har.t)
         (website : string) (har har2 : Har.t) (w : World),
    replay_capture (captures w) website false = inr har ->
    replay_capture (S (captures w)) website true = inr har2 ->
    get_har_resources har_entries_to_resources replay_capture website false w
    = (Ok (har_entries_to_resources (Har.entries (Har.log har))),
       mkWorld (log w) (stdout w) (fetched w) (S (captures w))) /\
    get_har_resources har_entries_to_resources replay_capture website true w
    = (Ok (har_entries_to_resources (Har.entries (Har.log har))),
       mkWorld (log w)
         (stdout w
          ++ replicate
               (length (filter (fun res => HarEntry.url (HarEntry.request res)
                                           ∈ critical_urls har2)
                               (Har.entries (Har.log har))))
               "doing some critical work")
         (fetched w) (S (S (captures w)))).
Proof.
  intros conv replay_capture website har har2 w Hhar Hhar2.
  unfold get_har_resources. split.
  - rewrite bind_eq. unfold capture_har_in_replay_server at 1.
    rewrite Hhar. reflexivity.
  - rewrite bind_eq. unfold capture_har_in_replay_server at 1.
    rewrite Hhar. cbn [negb]. rewrite bind_eq.
    unfold capture_har_in_replay_server at 1. cbn [captures].
    rewrite Hhar2, bind_eq, critical_work_loop.
    cbn [ret log stdout fetched captures].
    rewrite (list_filter_iff _
               (fun res => HarEntry.url (HarEntry.request res)
                           ∈ critical_urls har2)); [reflexivity|].
    intros res. unfold critical_urls. rewrite elem_of_list_to_set.
    reflexivity.
Qed.

Lemma get_har_resources_with_comparison_witness :
  get_har_resources simple_resources example_replay "http://example.com/"
                    true world0
  = (Ok (simple_resources [example_entry false]),
     mkWorld [] ["doing some critical work"] [] 2).
Proof.
  apply (proj2 (get_har_resources_with_comparison
                  simple_resources example_replay "http://example.com/"
                  (Har.mk (Har.mkLogT [example_entry false]))
                  (Har.mk (Har.mkLogT [example_entry true]))
                  world0 eq_refl eq_refl)).
Defined.

(** ** The precedence counters of find_url_stable_set *)

(** X6: the two index loops never leave the list, and they add to
    [pos_dict[a][b]] the number of pairs of positions [i < j] of the run
    with url [a] at [i] and url [b] at [j], for every [a] and [b]. *)
Theorem count_positions_counts_pairs :
  forall (resource_list : list Resource.t)
         (pos_dict : gmap string (gmap string Z)) (w : World),
  exists pos_dict',
    count_positions resource_list pos_dict w = (Ok pos_dict', w) /\
    forall a b,
      pos_get pos_dict' a b
      = pos_get pos_dict a b + precedence_count a b resource_list.
Proof.
  intros resource_list pos_dict w. eexists. split.
  - apply count_positions_ok.
  - intros a b. apply pos_get_count_pairs.
Qed.

Lemma urls_cons (x : Resource.t) (l : list Resource.t) :
  urls (x :: l) = Resource.url x :: urls l.
Proof. reflexivity. Qed.

Lemma precedence_count_absent_first (a b : string) (run : list Resource.t) :
  a ∉ urls run -> precedence_count a b run = 0.
Proof.
  induction run as [|x rest IH]; intros Ha; [reflexivity|].
  cbn [precedence_count]. rewrite urls_cons in Ha.
  apply not_elem_of_cons in Ha. destruct Ha as [Hx Ha].
  rewrite IH by exact Ha.
  destruct (String.eqb (Resource.url x) a) eqn:Heq; [|reflexivity].
  apply String.eqb_eq in Heq. congruence.
Qed.

Lemma count_url_absent (b : string) (run : list Resource.t) :
  b ∉ urls run -> filter (fun y => Resource.url y = b) run = [].
Proof.
  induction run as [|x rest IH]; intros Hb; [reflexivity|].
  rewrite urls_cons in Hb.
  apply not_elem_of_cons in Hb. destruct Hb as [Hx Hb].
  rewrite filter_cons_False by congruence. now apply IH.
Qed.

Lemma precedence_count_absent_second (a b : string)
    (run : list Resource.t) :
  b ∉ urls run -> precedence_count a b run = 0.
Proof.
  induction run as [|x rest IH]; intros Hb; [reflexivity|].
  cbn [precedence_count]. rewrite urls_cons in Hb.
  apply not_elem_of_cons in Hb. destruct Hb as [Hx Hb].
  rewrite IH by exact Hb. rewrite count_url_absent by exact Hb.
  now destruct (String.eqb (Resource.url x) a).
Qed.

Lemma count_url_once (b : string) (run : list Resource.t) :
  NoDup (urls run) -> b ∈ urls run ->
  length (filter (fun y => Resource.url y = b) run) = 1%nat.
Proof.
  induction run as [|x rest IH]; intros Hnd Hb.
  - now apply elem_of_nil in Hb.
  - rewrite urls_cons in Hnd, Hb.
    apply NoDup_cons in Hnd. destruct Hnd as [Hx Hnd].
    apply elem_of_cons in Hb. destruct Hb as [->|Hb].
    + rewrite filter_cons_True by reflexivity.
      now rewrite count_url_absent.
    + rewrite filter_cons_False
        by (intros Heq; rewrite Heq in Hx; contradiction).
      now apply IH.
Qed.

(** In a run without repeated urls, of two distinct urls that both occur
    exactly one stands before the other. *)
Lemma precedence_count_pair (a b : string) (run : list Resource.t) :
  NoDup (urls run) -> a <> b -> a ∈ urls run -> b ∈ urls run ->
  precedence_count a b run + precedence_count b a run = 1.
Proof.
  induction run as [|x rest IH]; intros Hnd Hab Ha Hb.
  - now apply elem_of_nil in Ha.
  - cbn [precedence_count]. rewrite urls_cons in Hnd, Ha, Hb.
    apply NoDup_cons in Hnd. destruct Hnd as [Hx Hnd].
    apply elem_of_cons in Ha. apply elem_of_cons in Hb.
    destruct Ha as [->|Ha]; destruct Hb as [->|Hb]; [congruence|..].
    + rewrite String.eqb_refl, (count_url_once b rest) by assumption.
      rewrite (proj2 (String.eqb_neq (Resource.url x) b)) by congruence.
      rewrite (precedence_count_absent_first (Resource.url x) b)
        by exact Hx.
      rewrite (precedence_count_absent_second b (Resource.url x))
        by exact Hx.
      reflexivity.
    + rewrite String.eqb_refl, (count_url_once a rest) by assumption.
      rewrite (proj2 (String.eqb_neq (Resource.url x) a)) by congruence.
      rewrite (precedence_count_absent_first (Resource.url x) a)
        by exact Hx.
      rewrite (precedence_count_absent_second a (Resource.url x))
        by exact Hx.
      reflexivity.
    + rewrite (proj2 (String.eqb_neq (Resource.url x) a))
        by (intros Heq; rewrite Heq in Hx; contradiction).
      rewrite (proj2 (String.eqb_neq (Resource.url x) b))
        by (intros Heq; rewrite Heq in Hx; contradiction).
      rewrite <- (IH Hnd Hab Ha Hb). lia.
Qed.

Lemma votes_pair (runs : list (list Resource.t)) (a b : string) :
  a <> b ->
  (forall run, run ∈ runs ->
               NoDup (urls run) /\ a ∈ urls run /\ b ∈ urls run) ->
  votes runs a b + votes runs b a = Z.of_nat (length runs).
Proof.
  intros Hab. induction runs as [|run runs IH]; intros Hruns;
    [reflexivity|].
  cbn [votes fold_right length].
  destruct (Hruns run ltac:(apply elem_of_cons; now left))
    as (Hnd & Ha & Hb).
  pose proof (precedence_count_pair a b run Hnd Hab Ha Hb) as Hpair.
  assert (IH' : votes runs a b + votes runs b a = Z.of_nat (length runs)).
  { apply IH. intros r Hr. apply Hruns. apply elem_of_cons. now right. }
  unfold votes in IH'. lia.
Qed.

(** X7: when no run repeats a url, the votes of two distinct resources
    common to all successful runs add up to the number of those runs; so
    the comparison never orders such a pair both ways, and with an odd
    number of successful runs it orders every such pair exactly one way. *)
Theorem find_url_stable_set_votes_decide :
  forall (set_order : SetOrder)
         (har_entries_to_resources : list HarEntry.t -> list Resource.t)
         (chrome_capture : nat -> string -> PyExn + Har.t)
         (hars : nat -> Har.t) (url : string) (w : World),
    (forall n, (n < STABLE_SET_NUM_RUNS)%nat ->
               chrome_capture (captures w + n)%nat url = inr (hars n)) ->
    (forall run, run ∈ successful_runs har_entries_to_resources hars ->
                 NoDup (urls run)) ->
    exists resource_lists pos_dict w',
      capture_runs har_entries_to_resources chrome_capture url w
      = (Ok (resource_lists, pos_dict), w') /\
      forall a b : Resource.t,
        Resource.url a <> Resource.url b ->
        (forall run, run ∈ successful_runs har_entries_to_resources hars ->
                     Resource.url a ∈ urls run /\
                     Resource.url b ∈ urls run) ->
        pos_get pos_dict (Resource.url a) (Resource.url b)
        + pos_get pos_dict (Resource.url b) (Resource.url a)
        = Z.of_nat (length resource_lists) /\
        ~ (cmp_to_key_lt (stable_set_cmp pos_dict resource_lists) a b = true
           /\ cmp_to_key_lt (stable_set_cmp pos_dict resource_lists) b a
              = true) /\
        (Z.odd (Z.of_nat (length resource_lists)) = true ->
         cmp_to_key_lt (stable_set_cmp pos_dict resource_lists) a b = true
         \/ cmp_to_key_lt (stable_set_cmp pos_dict resource_lists) b a
            = true).
Proof.
  intros set_order conv chrome_capture hars url w Hcap Hnd.
  eexists _, _, _. split.
  { apply (capture_runs_from conv chrome_capture hars).
    intros n Hn. now apply Hcap. }
  intros a b Hab Hin.
  set (runs := successful_from conv hars 0 STABLE_SET_NUM_RUNS) in *.
  assert (Hsum : votes runs (Resource.url a) (Resource.url b)
                 + votes runs (Resource.url b) (Resource.url a)
                 = Z.of_nat (length runs)).
  { apply votes_pair; [exact Hab|]. intros run Hrun.
    split; [now apply Hnd|now apply Hin]. }
  unfold cmp_to_key_lt, stable_set_cmp.
  rewrite !pos_get_positions, length_app, length_fmap. cbn [length].
  rewrite !Z.ltb_lt.
  change (pos_get ∅ (Resource.url a) (Resource.url b)) with 0.
  change (pos_get ∅ (Resource.url b) (Resource.url a)) with 0.
  cbn [Nat.add].
  split; [lia|]. split.
  - pose proof (Z.div_mod (Z.of_nat (length runs)) 2 ltac:(lia)) as Hdm.
    pose proof (Z.mod_pos_bound (Z.of_nat (length runs)) 2 ltac:(lia)).
    lia.
  - intros Hodd. apply Z.odd_spec in Hodd. destruct Hodd as [m Hm].
    pose proof (Z.div_mod (Z.of_nat (length runs)) 2 ltac:(lia)) as Hdm.
    pose proof (Z.mod_pos_bound (Z.of_nat (length runs)) 2 ltac:(lia)).
    lia.
Qed.

Lemma find_url_stable_set_votes_decide_witness :
  exists resource_lists pos_dict w',
    capture_runs (set_order := salted_order 0) simple_resources
                 voting_capture "http://example.com/" world0
    = (Ok (resource_lists, pos_dict), w') /\
    pos_get pos_dict "/a" "/b" + pos_get pos_dict "/b" "/a"
    = Z.of_nat (length resource_lists).
Proof.
  destruct (find_url_stable_set_votes_decide (salted_order 0)
              simple_resources voting_capture voting_har
              "http://example.com/" world0)
    as (rls & P & w' & Hruns & Hpairs).
  - intros n Hn. reflexivity.
  - intros run Hrun. vm_compute in Hrun.
    repeat (apply elem_of_cons in Hrun; destruct Hrun as [->|Hrun];
            [apply (bool_decide_unpack _); vm_compute; exact I|]).
    now apply elem_of_nil in Hrun.
  - exists rls, P, w'. split; [exact Hruns|].
    apply (Hpairs (Resource.mk "/a" OTHER 0 0 0 false)
                  (Resource.mk "/b" OTHER 0 0 0 false)).
    + discriminate.
    + intros run Hrun. vm_compute in Hrun.
      repeat (apply elem_of_cons in Hrun; destruct Hrun as [->|Hrun];
              [split; apply (bool_decide_unpack _); vm_compute; exact I|]).
      now apply elem_of_nil in Hrun.
Defined.

(** X8: when no capture raises, the function loads the page exactly
    [STABLE_SET_NUM_RUNS] times, whatever the runs produce (a run without
    resources is not repeated), prints nothing, fetches nothing with
    [requests] and writes two log records per run and one more. *)
Theorem find_url_stable_set_ten_captures :
  forall (set_order : SetOrder) (sorter : ListSort)
         (har_entries_to_resources : list HarEntry.t -> list Resource.t)
         (chrome_capture : nat -> string -> PyExn + Har.t)
         (hars : nat -> Har.t) (url : string) (w : World),
    (forall n, (n < STABLE_SET_NUM_RUNS)%nat ->
               chrome_capture (captures w + n)%nat url = inr (hars n)) ->
    let w' := snd (find_url_stable_set har_entries_to_resources
                                       chrome_capture url w) in
    captures w' = (captures w + 10)%nat /\
    stdout w' = stdout w /\
    fetched w' = fetched w /\
    length (log w') = (length (log w) + 21)%nat.
Proof.
  intros set_order sorter conv chrome_capture hars url w Hcap.
  rewrite (find_url_stable_set_returns conv chrome_capture hars)
    by exact Hcap.
  cbn [snd captures stdout fetched log]. repeat split.
  rewrite !length_app. unfold STABLE_SET_NUM_RUNS. cbn [seq List.flat_map].
  rewrite !length_app. unfold run_log.
  repeat match goal with
         | |- context [run_resources conv hars ?n] =>
             destruct (run_resources conv hars n)
         end; cbn [length]; lia.
Qed.

Lemma find_url_stable_set_ten_captures_witness :
  captures (snd (find_url_stable_set (set_order := salted_order 0)
                   (sorter := short_sort) simple_resources silent_capture
                   "http://example.com/" world0))
  = 10%nat.
Proof.
  apply (find_url_stable_set_ten_captures (salted_order 0) short_sort
           simple_resources silent_capture silent_har "http://example.com/"
           world0).
  intros n Hn. reflexivity.
Defined.

(** ** list.sort on a consistent comparison *)

(** When the comparison is "has a smaller rank", the sort of short lists
    returns the list in the order of the ranks. *)
Section ShortSortByRank.
Context {A : Type} (rank : A -> nat).
Local Open Scope nat_scope.

Let lt_rank (a b : A) : bool := rank a <? rank b.
Let le_rank (a b : A) : Prop := rank a <= rank b.

Local Instance le_rank_trans : Transitive le_rank.
Proof. intros a b c. unfold le_rank. lia. Qed.

Lemma run_ascending_sorted (l : list A) (prev : A) :
  Sorted le_rank (prev :: take (run_ascending lt_rank prev l) l).
Proof.
  revert prev. induction l as [|x l IH]; intros prev;
    cbn [run_ascending run_descending take].
  - repeat constructor.
  - unfold lt_rank at 1. destruct (rank x <? rank prev) eqn:Hlt; cbn [take].
    + repeat constructor.
    + apply Nat.ltb_ge in Hlt. constructor; [apply IH|].
      constructor. exact Hlt.
Qed.

Lemma run_descending_sorted (l : list A) (prev : A) :
  Sorted (fun a b => rank b < rank a)
         (prev :: take (run_descending lt_rank prev l) l).
Proof.
  revert prev. induction l as [|x l IH]; intros prev;
    cbn [run_ascending run_descending take].
  - repeat constructor.
  - unfold lt_rank at 1. destruct (rank x <? rank prev) eqn:Hlt; cbn [take].
    + apply Nat.ltb_lt in Hlt. constructor; [apply IH|].
      constructor. exact Hlt.
    + repeat constructor.
Qed.

Lemma StronglySorted_rev_descending (l : list A) :
  StronglySorted (fun a b => rank b < rank a) l ->
  StronglySorted le_rank (rev l).
Proof.
  induction 1 as [|x l Hl IH Hx]; cbn; [constructor|].
  apply StronglySorted_app_2; [|exact IH|repeat constructor].
  intros x1 x2 Hx1 Hx2. apply list_elem_of_singleton in Hx2. subst x2.
  apply list_elem_of_In, in_rev, list_elem_of_In in Hx1.
  rewrite Forall_forall in Hx. specialize (Hx x1 Hx1).
  unfold le_rank. lia.
Qed.

(** The leading run, turned round when it descends, is sorted. *)
Lemma count_run_sorted (l : list A) :
  let '(n, descending) := count_run lt_rank l in
  StronglySorted le_rank (if descending then rev (take n l) else take n l).
Proof.
  destruct l as [|x [|y l]]; cbn [count_run].
  - constructor.
  - cbn. repeat constructor.
  - unfold lt_rank at 1. destruct (rank y <? rank x) eqn:Hlt.
    + apply Nat.ltb_lt in Hlt. apply StronglySorted_rev_descending.
      apply Sorted_StronglySorted; [intros a b c; lia|].
      cbn [take]. constructor; [apply run_descending_sorted|].
      constructor. exact Hlt.
    + apply Nat.ltb_ge in Hlt. apply Sorted_StronglySorted; [apply _|].
      cbn [take]. constructor; [apply run_ascending_sorted|].
      constructor. exact Hlt.
Qed.

Lemma StronglySorted_lookup (s : list A) (i j : nat) (x y : A) :
  StronglySorted le_rank s -> i < j ->
  s !! i = Some x -> s !! j = Some y -> rank x <= rank y.
Proof.
  intros Hs. revert i j. induction Hs as [|z s Hs IH Hz]; intros i j Hij Hi Hj.
  - discriminate.
  - destruct j as [|j]; [lia|]. cbn in Hj. destruct i as [|i].
    + cbn in Hi. injection Hi as ->. rewrite Forall_forall in Hz.
      apply (Hz y). now apply list_elem_of_lookup_2 in Hj.
    + cbn in Hi. apply (IH i j); [lia|assumption..].
  Qed.

Lemma mid_bounds (l r : nat) : l < r -> l <= l + (r - l) / 2 < r.
Proof.
  intros H. pose proof (Nat.div_mod_eq (r - l) 2) as E.
  pose proof (Nat.mod_upper_bound (r - l) 2 ltac:(lia)) as B. lia.
Qed.

(** The binary search ends at a position that has the elements not above
    the pivot before it and the elements above the pivot from it on. *)
Lemma binary_search_position (s : list A) (pivot : A) (fuel l r : nat) :
  StronglySorted le_rank s -> l <= r <= length s -> r - l <= fuel ->
  (forall i x, i < l -> s !! i = Some x -> rank x <= rank pivot) ->
  (forall i x, r <= i -> s !! i = Some x -> rank pivot < rank x) ->
  let pos := binary_search lt_rank fuel s pivot l r in
  (forall i x, i < pos -> s !! i = Some x -> rank x <= rank pivot) /\
  (forall i x, pos <= i -> s !! i = Some x -> rank pivot < rank x).
Proof.
  intros Hs. revert l r. induction fuel as [|fuel IH];
    intros l r Hlr Hfuel Hlow Hhigh; cbn [binary_search].
  - assert (l = r) by lia. subst r. split; assumption.
  - destruct (l <? r) eqn:Hlt.
    + apply Nat.ltb_lt in Hlt. pose proof (mid_bounds l r Hlt) as Hmid.
      set (p := l + (r - l) / 2) in *.
      destruct (lookup_lt_is_Some_2 s p ltac:(lia)) as [x Hx].
      rewrite Hx.
      destruct (lt_rank pivot x) eqn:Hpx; unfold lt_rank in Hpx.
      * apply Nat.ltb_lt in Hpx. apply IH; [lia|lia|exact Hlow|].
        intros i y Hi Hy. destruct (decide (i = p)) as [->|Hne].
        -- rewrite Hx in Hy. injection Hy as <-. exact Hpx.
        -- pose proof (StronglySorted_lookup s p i x y Hs ltac:(lia) Hx Hy).
           lia.
      * apply Nat.ltb_ge in Hpx. apply IH; [lia|lia| |exact Hhigh].
        intros i y Hi Hy. destruct (decide (i = p)) as [->|Hne].
        -- rewrite Hx in Hy. injection Hy as <-. exact Hpx.
        -- pose proof (StronglySorted_lookup s i p y x Hs ltac:(lia) Hy Hx).
           lia.
    + apply Nat.ltb_ge in Hlt. assert (l = r) by lia. subst r.
      split; assumption.
Qed.

Lemma binary_insert_sorted (s : list A) (pivot : A) :
  StronglySorted le_rank s ->
  StronglySorted le_rank (binary_insert lt_rank s pivot).
Proof.
  intros Hs. unfold binary_insert.
  destruct (binary_search_position s pivot (length s) 0 (length s) Hs)
    as [Hlow Hhigh]; [lia|lia|intros; lia| |].
  { intros i x Hi Hx. apply lookup_lt_Some in Hx. lia. }
  set (pos := binary_search lt_rank (length s) s pivot 0 (length s)) in *.
  rewrite <- (take_drop pos s) in Hs.
  apply StronglySorted_app in Hs. destruct Hs as (_ & Htake & Hdrop).
  assert (Hafter : forall y, y ∈ drop pos s -> rank pivot < rank y).
  { intros y Hy. apply list_elem_of_lookup in Hy. destruct Hy as [i Hy].
    rewrite lookup_drop in Hy. apply (Hhigh (pos + i) y); [lia|exact Hy]. }
  apply StronglySorted_app_2; [|exact Htake|].
  - intros x1 x2 Hx1 Hx2. apply elem_of_take in Hx1.
    destruct Hx1 as (i & Hx1 & Hi). pose proof (Hlow i x1 Hi Hx1).
    apply elem_of_cons in Hx2. destruct Hx2 as [->|Hx2].
    + exact H.
    + specialize (Hafter x2 Hx2). unfold le_rank. lia.
  - constructor; [exact Hdrop|]. apply Forall_forall. intros y Hy.
    specialize (Hafter y Hy). unfold le_rank. lia.
Qed.

Lemma binarysort_sorted (rest run : list A) :
  StronglySorted le_rank run ->
  StronglySorted le_rank (binarysort lt_rank run rest).
Proof.
  unfold binarysort. revert run.
  induction rest as [|x rest IH]; intros run Hrun; cbn [fold_left];
    [exact Hrun|].
  apply IH, binary_insert_sorted, Hrun.
Qed.

Lemma listsort_short_sorted (l : list A) :
  StronglySorted (fun a b => rank a <= rank b)
                 (listsort_short (fun a b => rank a <? rank b) l).
Proof.
  change (StronglySorted le_rank (listsort_short lt_rank l)).
  unfold listsort_short. destruct l as [|x [|y l]].
  - constructor.
  - repeat constructor.
  - pose proof (count_run_sorted (x :: y :: l)) as Hrun.
    destruct (count_run lt_rank (x :: y :: l)) as [n descending].
    now apply binarysort_sorted.
Qed.
End ShortSortByRank.

(** The sort of short lists looks at the comparison only on the elements of
    the list. *)
Ltac elem_of_list :=
  repeat first [assumption | apply list_elem_of_here
               | apply list_elem_of_further].

Section ShortSortExt.
Context {A : Type} (lt1 lt2 : A -> A -> bool).

Lemma run_descending_ext (l : list A) (prev : A) :
  (forall a b, a ∈ prev :: l -> b ∈ prev :: l -> lt1 a b = lt2 a b) ->
  run_descending lt1 prev l = run_descending lt2 prev l.
Proof.
  revert prev. induction l as [|x l IH]; intros prev Hext; [reflexivity|].
  cbn [run_descending]. rewrite (Hext x prev) by elem_of_list.
  destruct (lt2 x prev); [|reflexivity].
  f_equal. apply IH. intros a b Ha Hb. apply Hext; elem_of_list.
Qed.

Lemma run_ascending_ext (l : list A) (prev : A) :
  (forall a b, a ∈ prev :: l -> b ∈ prev :: l -> lt1 a b = lt2 a b) ->
  run_ascending lt1 prev l = run_ascending lt2 prev l.
Proof.
  revert prev. induction l as [|x l IH]; intros prev Hext; [reflexivity|].
  cbn [run_ascending]. rewrite (Hext x prev) by elem_of_list.
  destruct (lt2 x prev); [reflexivity|].
  f_equal. apply IH. intros a b Ha Hb. apply Hext; elem_of_list.
Qed.

Lemma count_run_ext (l : list A) :
  (forall a b, a ∈ l -> b ∈ l -> lt1 a b = lt2 a b) ->
  count_run lt1 l = count_run lt2 l.
Proof.
  intros Hext. destruct l as [|x [|y l]]; [reflexivity..|].
  cbn [count_run]. rewrite (Hext y x) by elem_of_list.
  destruct (lt2 y x).
  - rewrite run_descending_ext; [reflexivity|].
    intros a b Ha Hb. apply Hext; elem_of_list.
  - rewrite run_ascending_ext; [reflexivity|].
    intros a b Ha Hb. apply Hext; elem_of_list.
Qed.

Lemma binary_search_ext (s : list A) (pivot : A) (fuel l r : nat) :
  (forall x, x ∈ s -> lt1 pivot x = lt2 pivot x) ->
  binary_search lt1 fuel s pivot l r = binary_search lt2 fuel s pivot l r.
Proof.
  intros Hext. revert l r. induction fuel as [|fuel IH]; intros l r;
    [reflexivity|].
  cbn [binary_search]. destruct (l <? r)%nat; [|reflexivity].
  destruct (s !! _) as [x|] eqn:Hx; [|reflexivity].
  rewrite (Hext x) by (eapply list_elem_of_lookup_2; exact Hx).
  now rewrite !IH.
Qed.

Lemma binarysort_ext (rest run : list A) :
  (forall a b, a ∈ run ++ rest -> b ∈ run ++ rest -> lt1 a b = lt2 a b) ->
  binarysort lt1 run rest = binarysort lt2 run rest.
Proof.
  unfold binarysort. revert run.
  induction rest as [|x rest IH]; intros run Hext; [reflexivity|].
  cbn [fold_left].
  assert (Hins : binary_insert lt1 run x = binary_insert lt2 run x).
  { unfold binary_insert. rewrite binary_search_ext; [reflexivity|].
    intros y Hy. apply Hext; apply elem_of_app.
    - right. apply list_elem_of_here.
    - now left. }
  assert (Hperm : binary_insert lt2 run x ++ rest ≡ₚ run ++ x :: rest).
  { rewrite binary_insert_perm. apply Permutation_middle. }
  rewrite Hins. apply IH. intros a b Ha Hb.
  rewrite Hperm in Ha, Hb. now apply Hext.
Qed.

Lemma listsort_short_ext (l : list A) :
  (forall a b, a ∈ l -> b ∈ l -> lt1 a b = lt2 a b) ->
  listsort_short lt1 l = listsort_short lt2 l.
Proof.
  intros Hext. unfold listsort_short.
  destruct l as [|x [|y l]]; [reflexivity..|].
  rewrite (count_run_ext _ Hext).
  destruct (count_run lt2 (x :: y :: l)) as [n descending].
  revert Hext. generalize (x :: y :: l) as l'. intros l' Hext.
  assert (Hperm : (if descending then rev (take n l') else take n l')
                  ++ drop n l' ≡ₚ l').
  { transitivity (take n l' ++ drop n l'); [|now rewrite take_drop].
    apply Permutation_app_tail.
    destruct descending; [symmetry; apply Permutation_rev|reflexivity]. }
  apply binarysort_ext. intros a b Ha Hb.
  rewrite Hperm in Ha, Hb. now apply Hext.
Qed.
End ShortSortExt.

(** ** find_url_stable_set on runs that agree *)

Lemma index_of_lookup (us : list string) (u : string) :
  u ∈ us -> us !! index_of us u = Some u.
Proof.
  induction us as [|x us IH]; intros Hu; [now apply elem_of_nil in Hu|].
  cbn [index_of]. destruct (String.eqb x u) eqn:Hx.
  - apply String.eqb_eq in Hx. now subst.
  - apply String.eqb_neq in Hx. apply elem_of_cons in Hu.
    destruct Hu as [->|Hu]; [congruence|]. now apply IH.
Qed.

Lemma index_of_seq (us : list string) :
  NoDup us -> index_of us <$> us = seq 0 (length us).
Proof.
  induction 1 as [|x us Hx Hnd IH]; [reflexivity|].
  cbn [fmap list_fmap index_of length seq]. rewrite String.eqb_refl.
  f_equal. rewrite <- fmap_S_seq, <- IH, <- list_fmap_compose.
  apply Forall_fmap_ext, Forall_forall. intros u Hu. cbn.
  rewrite (proj2 (String.eqb_neq x u)); [reflexivity|].
  intros ->. contradiction.
Qed.

Lemma index_of_seq_inv (us l : list string) :
  (forall u, u ∈ l -> u ∈ us) ->
  index_of us <$> l = seq 0 (length us) -> l = us.
Proof.
  intros Hin Hidx. apply list_eq. intros i.
  assert (Hlen : length l = length us).
  { rewrite <- (length_fmap (index_of us) l), Hidx. apply length_seq. }
  destruct (l !! i) as [u|] eqn:Hu.
  - assert (Hi : (index_of us <$> l) !! i = Some (index_of us u))
      by (rewrite list_lookup_fmap, Hu; reflexivity).
    rewrite Hidx in Hi. apply lookup_seq in Hi. destruct Hi as [Hi _].
    cbn in Hi. rewrite <- Hi. symmetry. apply index_of_lookup.
    apply Hin. now apply list_elem_of_lookup_2 in Hu.
  - apply lookup_ge_None in Hu. symmetry. apply lookup_ge_None. lia.
Qed.

Lemma seq_StronglySorted (j n : nat) : StronglySorted le (seq j n).
Proof.
  revert j. induction n as [|n IH]; intros j; cbn [seq]; constructor.
  - apply IH.
  - apply Forall_seq. intros k Hk. lia.
Qed.

(** In a run without repeated urls the count is 1 when [a] stands before
    [b] and 0 otherwise. *)
Lemma precedence_count_by_index (a b : string) (run : list Resource.t) :
  NoDup (urls run) -> a ∈ urls run -> b ∈ urls run ->
  precedence_count a b run
  = if (index_of (urls run) a <? index_of (urls run) b)%nat then 1 else 0.
Proof.
  induction run as [|x rest IH]; intros Hnd Ha Hb.
  - now apply elem_of_nil in Ha.
  - cbn [precedence_count]. rewrite urls_cons in Hnd, Ha, Hb |- *.
    cbn [index_of].
    apply NoDup_cons in Hnd. destruct Hnd as [Hx Hnd].
    apply elem_of_cons in Ha. apply elem_of_cons in Hb.
    destruct Ha as [->|Ha]; destruct Hb as [->|Hb].
    + rewrite String.eqb_refl.
      rewrite count_url_absent by exact Hx.
      rewrite (precedence_count_absent_first (Resource.url x)) by exact Hx.
      reflexivity.
    + rewrite String.eqb_refl, (count_url_once b rest) by assumption.
      rewrite (proj2 (String.eqb_neq (Resource.url x) b))
        by (intros Heq; rewrite Heq in Hx; contradiction).
      rewrite (precedence_count_absent_first (Resource.url x)) by exact Hx.
      reflexivity.
    + rewrite String.eqb_refl.
      rewrite (proj2 (String.eqb_neq (Resource.url x) a))
        by (intros Heq; rewrite Heq in Hx; contradiction).
      rewrite (precedence_count_absent_second a (Resource.url x))
        by exact Hx.
      reflexivity.
    + rewrite (proj2 (String.eqb_neq (Resource.url x) a))
        by (intros Heq; rewrite Heq in Hx; contradiction).
      rewrite (proj2 (String.eqb_neq (Resource.url x) b))
        by (intros Heq; rewrite Heq in Hx; contradiction).
      rewrite (IH Hnd Ha Hb). reflexivity.
Qed.

Lemma votes_by_index (runs : list (list Resource.t)) (us : list string)
    (a b : string) :
  (forall run, run ∈ runs -> urls run = us) ->
  NoDup us -> a ∈ us -> b ∈ us ->
  votes runs a b
  = if (index_of us a <? index_of us b)%nat
    then Z.of_nat (length runs) else 0.
Proof.
  intros Hruns Hnd Ha Hb. induction runs as [|run runs IH].
  - cbn [votes fold_right length].
    destruct (index_of us a <? index_of us b)%nat; reflexivity.
  - cbn [votes fold_right length].
    assert (Hrun : urls run = us) by (apply Hruns, list_elem_of_here).
    rewrite precedence_count_by_index by (rewrite Hrun; assumption).
    rewrite Hrun.
    assert (IH' : votes runs a b
                  = if (index_of us a <? index_of us b)%nat
                    then Z.of_nat (length runs) else 0).
    { apply IH. intros r Hr. apply Hruns. now apply list_elem_of_further. }
    unfold votes in IH'. rewrite IH'.
    destruct (index_of us a <? index_of us b)%nat; lia.
Qed.

(** X9: when every run that produced resources lists the same urls in the
    same order, without repeats and fewer than 64 of them, the function
    returns the resources in that order, whatever the interpreter's set
    iteration order. *)
Theorem find_url_stable_set_unanimous_order :
  forall (set_order : SetOrder) (sorter : ListSort)
         (har_entries_to_resources : list HarEntry.t -> list Resource.t)
         (chrome_capture : nat -> string -> PyExn + Har.t)
         (hars : nat -> Har.t) (url : string) (w : World)
         (us : list string),
    (forall n, (n < STABLE_SET_NUM_RUNS)%nat ->
               chrome_capture (captures w + n)%nat url = inr (hars n)) ->
    successful_runs har_entries_to_resources hars <> [] ->
    (forall run, run ∈ successful_runs har_entries_to_resources hars ->
                 urls run = us) ->
    NoDup us -> (length us < 64)%nat ->
    exists out w',
      find_url_stable_set har_entries_to_resources chrome_capture url w
      = (Ok out, w') /\
      urls out = us.
Proof.
  intros set_order sorter conv chrome_capture hars url w us Hcap Hne Hruns
         Hnd Hshort.
  eexists _, _. split.
  { now apply (find_url_stable_set_returns conv chrome_capture hars). }
  set (runs := successful_runs conv hars) in *.
  set (common := common_resources (set_new <$> runs)).
  set (rank := fun r : Resource.t => index_of us (Resource.url r)).
  assert (Hurls : forall u, u ∈ urls common <-> u ∈ us).
  { intros u. unfold common, runs. rewrite common_successful_urls.
    fold runs. split.
    - intros [_ Hall]. destruct runs as [|run runs'] eqn:Heq;
        [congruence|].
      rewrite <- (Hruns run (list_elem_of_here _ _)).
      apply Hall, list_elem_of_here.
    - intros Hu. split; [exact Hne|]. intros run Hrun.
      now rewrite (Hruns run Hrun). }
  assert (Hperm : urls common ≡ₚ us).
  { apply NoDup_Permutation;
      [apply common_resources_NoDup|exact Hnd|exact Hurls]. }
  assert (Hlen : length common = length us).
  { rewrite <- (Permutation_length Hperm). unfold urls.
    now rewrite length_fmap. }
  rewrite list_sort_short by (fold common; lia). fold common.
  rewrite (listsort_short_ext _ (fun a b => (rank a <? rank b)%nat)).
  2:{ intros a b Ha Hb.
      assert (Hua : Resource.url a ∈ us)
        by (apply Hurls, list_elem_of_fmap; eauto).
      assert (Hub : Resource.url b ∈ us)
        by (apply Hurls, list_elem_of_fmap; eauto).
      unfold cmp_to_key_lt, stable_set_cmp, rank.
      rewrite pos_get_positions, length_fmap. fold runs.
      change (pos_get ∅ (Resource.url a) (Resource.url b)) with 0.
      rewrite (votes_by_index runs us) by assumption.
      assert (Hpos : (0 < length runs)%nat)
        by (destruct runs; [congruence|cbn; lia]).
      pose proof (Z.div_mod (Z.of_nat (length runs)) 2 ltac:(lia)) as Hdm.
      pose proof (Z.mod_pos_bound (Z.of_nat (length runs)) 2 ltac:(lia)).
      destruct (index_of us (Resource.url a)
                <? index_of us (Resource.url b))%nat.
      - apply Z.ltb_lt. lia.
      - apply Z.ltb_ge. lia. }
  set (out := listsort_short (fun a b => (rank a <? rank b)%nat) common).
  assert (Hout : out ≡ₚ common) by apply listsort_short_perm.
  assert (Hranks : rank <$> out = seq 0 (length us)).
  { apply (StronglySorted_unique le).
    - apply (StronglySorted_fmap _ (fun a b => (rank a <= rank b)%nat));
        [auto|]. apply listsort_short_sorted.
    - apply seq_StronglySorted.
    - rewrite Hout. unfold rank.
      rewrite (list_fmap_compose Resource.url (index_of us)).
      fold (urls common). rewrite Hperm. now rewrite index_of_seq. }
  apply index_of_seq_inv.
  - intros u Hu. apply Hurls. unfold urls in Hu |- *. now rewrite <- Hout.
  - unfold urls. rewrite <- list_fmap_compose. exact Hranks.
Qed.

Lemma find_url_stable_set_unanimous_order_witness :
  exists out w',
    find_url_stable_set (set_order := salted_order 1) (sorter := short_sort)
      simple_resources failing_free_capture "http://example.com/" world0
    = (Ok out, w') /\
    urls out = ["/b"; "/a"; "/c"].
Proof.
  apply (find_url_stable_set_unanimous_order (salted_order 1) short_sort
           simple_resources failing_free_capture
           (fun n => har_of (nth n agreeing_runs []))
           "http://example.com/" world0).
  - intros n Hn. reflexivity.
  - vm_compute. discriminate.
  - intros run Hrun. vm_compute in Hrun.
    repeat (apply elem_of_cons in Hrun; destruct Hrun as [->|Hrun];
            [reflexivity|]).
    now apply elem_of_nil in Hrun.
  - apply (bool_decide_unpack _). vm_compute. exact I.
  - cbn. lia.
Defined.

(** ** get_page_links: what a crawl returns *)

Lemma ordered_uniq_fold_elem (links acc : list string) (x : string) :
  x ∈ fold_left (fun acc x => if bool_decide (x ∈ acc) then acc
                              else acc ++ [x]) links acc ->
  x ∈ acc \/ x ∈ links.
Proof.
  revert acc. induction links as [|y links IH]; intros acc; cbn [fold_left].
  - tauto.
  - intros Hx. apply IH in Hx. rewrite elem_of_cons.
    destruct Hx as [Hx|Hx]; [|tauto].
    destruct (bool_decide (y ∈ acc)); [tauto|].
    apply elem_of_app in Hx. destruct Hx as [Hx|Hx]; [tauto|].
    apply list_elem_of_singleton in Hx. tauto.
Qed.

Lemma ordered_uniq_elem (links : list string) (x : string) :
  x ∈ ordered_uniq links -> x ∈ links.
Proof.
  intros Hx. apply ordered_uniq_fold_elem in Hx.
  destruct Hx as [Hx|Hx]; [now apply elem_of_nil in Hx|exact Hx].
Qed.

Section CrawlFacts.
Variable http_get : nat -> string -> PyExn + Response.
Variable ElementTree_fromstring : string -> option Element.
Variable Url_domain : string -> string.

Local Abbreviation crawl :=
  (get_page_links http_get ElementTree_fromstring Url_domain).

(** One pass of the loop keeps a property of the links when the link it
    adds and the links the recursive call returns have it. *)
Lemma visit_link_keeps (Q : string -> Prop) recurse ctx domain max_depth
    (links links' : list string) (link : Element) w w' :
  (forall link_url found w1 w2,
      kept_link Url_domain domain link_url = true ->
      recurse link_url (max_depth - 1) w1 = (Ok found, w2) ->
      Q link_url /\ Forall Q found) ->
  Forall Q links ->
  visit_link Url_domain recurse ctx domain max_depth links link w
  = (Ok links', w') ->
  Forall Q links'.
Proof.
  intros Hrec Hlinks. unfold visit_link, kept_link in *.
  destruct (Element_get link "href") as [link_url|]; [|discriminate].
  destruct (existsb _ _) eqn:Hprefix; cbn [negb].
  - destruct (String.eqb (Url_domain link_url) domain) eqn:Hdom; cbn [negb].
    + rewrite bind_eq.
      destruct (recurse link_url (max_depth - 1) w) as [[found|e] w1] eqn:Hr;
        [|discriminate].
      intros Heq. injection Heq as <- _.
      destruct (Hrec link_url found w w1) as [Hq Hfound].
      * now rewrite Hprefix, Hdom.
      * exact Hr.
      * rewrite !Forall_app. repeat split; auto.
    + rewrite bind_eq. cbn [emit ret]. intros Heq. now injection Heq as <- _.
  - rewrite bind_eq. cbn [emit ret]. intros Heq. now injection Heq as <- _.
Qed.

Lemma visit_links_keep (Q : string -> Prop) recurse ctx domain max_depth
    (parsed_links : list Element) (links links' : list string) w w' :
  (forall link_url found w1 w2,
      kept_link Url_domain domain link_url = true ->
      recurse link_url (max_depth - 1) w1 = (Ok found, w2) ->
      Q link_url /\ Forall Q found) ->
  Forall Q links ->
  for_fold parsed_links links
           (visit_link Url_domain recurse ctx domain max_depth) w
  = (Ok links', w') ->
  Forall Q links'.
Proof.
  intros Hrec. revert links w.
  induction parsed_links as [|link l IH]; intros links w Hlinks.
  - cbn. intros Heq. now injection Heq as <- _.
  - rewrite for_fold_cons.
    destruct (visit_link Url_domain recurse ctx domain max_depth links link w)
      as [[links1|e] w1] eqn:Hv; [|discriminate].
    apply IH. eapply visit_link_keeps; eauto.
Qed.

Lemma get_page_links_same_domain (frames : nat) :
  forall (url : string) (max_depth : Z) (w w' : World) (out : list string),
    crawl frames url max_depth w = (Ok out, w') ->
    Forall (fun link => kept_link Url_domain (Url_domain url) link = true)
           out.
Proof.
  induction frames as [|frames IH]; intros url max_depth w w' out;
    [discriminate|].
  cbn [get_page_links]. destruct (max_depth =? 0).
  { intros Heq. injection Heq as <- _. constructor. }
  rewrite bind_eq.
  destruct (fetch_page http_get _ url w) as [[[page_text|]|e] w1];
    [| |discriminate].
  2:{ intros Heq. injection Heq as <- _. constructor. }
  rewrite bind_eq.
  destruct (parse_page ElementTree_fromstring _ page_text w1)
    as [[[root|]|e] w2]; [| |discriminate].
  2:{ intros Heq. injection Heq as <- _. constructor. }
  rewrite bind_eq. cbn [emit]. rewrite bind_eq.
  match goal with
  | |- context [for_fold ?l ?s ?body ?w0] =>
      destruct (for_fold l s body w0) as [[links|e] w3] eqn:Hloop
  end; [|discriminate].
  intros Heq. injection Heq as <- _.
  assert (Hlinks : Forall (fun link => kept_link Url_domain (Url_domain url)
                                                 link = true) links).
  { eapply (visit_links_keep _ _ _ _ _ _ [] links); [| |exact Hloop].
    - intros link_url found wa wb Hkept Hrec. split; [exact Hkept|].
      apply IH in Hrec. unfold kept_link in Hkept.
      apply andb_true_iff in Hkept. destruct Hkept as [_ Hdom].
      apply String.eqb_eq in Hdom. now rewrite Hdom in Hrec.
    - constructor. }
  apply Forall_forall. intros x Hx. apply ordered_uniq_elem in Hx.
  rewrite Forall_forall in Hlinks. now apply Hlinks.
Qed.

Lemma get_page_links_depth_zero (frames : nat) (url : string) w :
  crawl (S frames) url 0 w = (Ok [], w).
Proof. reflexivity. Qed.

(** With [max_depth = 1] the recursive calls return at once. *)
Lemma visit_links_depth_one (frames : nat) ctx domain
    (parsed_links : list Element) (links : list string) w :
  Forall (fun e => is_Some (Element_get e "href")) parsed_links ->
  exists w',
    for_fold parsed_links links
             (visit_link Url_domain (crawl (S frames)) ctx domain 1) w
    = (Ok (links
           ++ filter (fun h => kept_link Url_domain domain h = true)
                     (omap (fun e => Element_get e "href") parsed_links)),
       w') /\
    fetched w' = fetched w.
Proof.
  intros Hhref. revert links w.
  induction Hhref as [|link l [href Hlink] Hl IH]; intros links w.
  - exists w. cbn. rewrite app_nil_r. split; reflexivity.
  - rewrite for_fold_cons. cbn [omap list_omap]. rewrite Hlink.
    unfold visit_link at 1. rewrite Hlink. unfold kept_link at 1.
    destruct (existsb _ _) eqn:Hprefix; cbn [negb andb].
    + destruct (String.eqb (Url_domain href) domain) eqn:Hdom; cbn [negb].
      * rewrite filter_cons_True
          by (unfold kept_link; now rewrite Hprefix, Hdom).
        rewrite bind_eq. change (1 - 1) with 0.
        rewrite get_page_links_depth_zero. cbn [ret].
        destruct (IH ((links ++ [href]) ++ []) w) as (w' & Hloop & Hf).
        exists w'. rewrite Hloop, app_nil_r, <- app_assoc.
        split; [reflexivity|exact Hf].
      * rewrite filter_cons_False
          by (unfold kept_link; rewrite Hprefix, Hdom; discriminate).
        rewrite bind_eq. cbn [emit ret].
        match goal with
        | |- context [for_fold l links _ ?w1] =>
            destruct (IH links w1) as (w' & Hloop & Hf)
        end.
        exists w'. rewrite Hloop. split; [reflexivity|exact Hf].
    + rewrite filter_cons_False
        by (unfold kept_link; rewrite Hprefix; discriminate).
      rewrite bind_eq. cbn [emit ret].
      match goal with
      | |- context [for_fold l links _ ?w1] =>
          destruct (IH links w1) as (w' & Hloop & Hf)
      end.
      exists w'. rewrite Hloop. split; [reflexivity|exact Hf].
Qed.
End CrawlFacts.

(** X10: every link a crawl returns, from the page itself or from a page
    reached through it, starts with [http] or [/] and has the domain of the
    url the crawl started from. *)
Theorem get_page_links_stays_on_domain :
  forall (http_get : nat -> string -> PyExn + Response)
         (ElementTree_fromstring : string -> option Element)
         (Url_domain : string -> string)
         (frames : nat) (url : string) (max_depth : Z) (w w' : World)
         (out : list string),
    get_page_links http_get ElementTree_fromstring Url_domain frames url
                   max_depth w
    = (Ok out, w') ->
    forall link,
      link ∈ out ->
      Url_domain link = Url_domain url /\
      (String.prefix "http" link = true \/ String.prefix "/" link = true).
Proof.
  intros http_get parse Url_domain frames url max_depth w w' out Hcrawl
         link Hlink.
  pose proof (get_page_links_same_domain http_get parse Url_domain frames
                url max_depth w w' out Hcrawl) as Hall.
  rewrite Forall_forall in Hall. specialize (Hall link Hlink).
  unfold kept_link in Hall. apply andb_true_iff in Hall.
  destruct Hall as [Hprefix Hdom]. split; [now apply String.eqb_eq|].
  cbn [existsb] in Hprefix. rewrite orb_false_r in Hprefix.
  now apply orb_true_iff in Hprefix.
Qed.

Lemma get_page_links_stays_on_domain_witness :
  fst (get_page_links crawl_http_get crawl_fromstring crawl_domain 10
                      "http://example.com/" 2 world0)
  = Ok ["/about"; "/team"] /\
  crawl_domain "/team" = crawl_domain "http://example.com/".
Proof.
  split; [vm_compute; reflexivity|].
  destruct (get_page_links crawl_http_get crawl_fromstring crawl_domain 10
                           "http://example.com/" 2 world0)
    as [[out|e] w'] eqn:Hcrawl; [|vm_compute in Hcrawl; discriminate].
  assert (Hout : out = ["/about"; "/team"])
    by (vm_compute in Hcrawl; now injection Hcrawl as <- _).
  apply (get_page_links_stays_on_domain crawl_http_get crawl_fromstring
           crawl_domain 10 "http://example.com/" 2 world0 w' out Hcrawl).
  rewrite Hout. apply list_elem_of_further, list_elem_of_here.
Defined.

(** X11: with the default [max_depth = 1], when the page is fetched and
    parsed and every anchor has an [href], the call returns the hrefs that
    start with [http] or [/] and have the page's domain, in document order
    with repeats dropped, and makes exactly one request. *)
Theorem get_page_links_depth_one :
  forall (http_get : nat -> string -> PyExn + Response)
         (ElementTree_fromstring : string -> option Element)
         (Url_domain : string -> string)
         (frames : nat) (url : string) (w : World)
         (page : Response) (root : Element),
    http_get (length (fetched w)) url = inr page ->
    ~ http_error page ->
    ElementTree_fromstring (text page) = Some root ->
    Forall (fun e => is_Some (Element_get e "href")) (findall_a root) ->
    let result := get_page_links http_get ElementTree_fromstring Url_domain
                                 (S (S frames)) url 1 w in
    fst result
    = Ok (ordered_uniq
            (filter (fun h => kept_link Url_domain (Url_domain url) h = true)
                    (omap (fun e => Element_get e "href")
                          (findall_a root)))) /\
    fetched (snd result) = fetched w ++ [url].
Proof.
  intros http_get parse Url_domain frames url w page root Hget Hok Hparse
         Hhref.
  cbn [get_page_links Z.eqb].
  rewrite bind_eq, (fetch_page_ok http_get _ url page) by assumption.
  rewrite bind_eq, (parse_page_ok parse _ _ root) by assumption.
  rewrite bind_eq. cbn [emit]. rewrite bind_eq.
  match goal with
  | |- context [for_fold ?l ?s _ ?w0] =>
      destruct (visit_links_depth_one http_get parse Url_domain frames
                  [("depth_left", VInt 1)] (Url_domain url) l s w0 Hhref)
        as (w' & Hloop & Hfetched)
  end.
  cbn [get_page_links] in Hloop. rewrite Hloop. cbn [ret fst snd app].
  split; [reflexivity|]. rewrite Hfetched. reflexivity.
Qed.

Lemma get_page_links_depth_one_witness :
  fst (get_page_links crawl_http_get crawl_fromstring crawl_domain 2
                      "http://example.com/" 1 world0)
  = Ok ["/about"] /\
  fetched (snd (get_page_links crawl_http_get crawl_fromstring crawl_domain 2
                               "http://example.com/" 1 world0))
  = ["http://example.com/"].
Proof.
  apply (get_page_links_depth_one crawl_http_get crawl_fromstring
           crawl_domain 0 "http://example.com/" world0
           (mkResponse 200 "front") crawl_front).
  - reflexivity.
  - unfold http_error. cbn. lia.
  - reflexivity.
  - vm_compute. repeat constructor; eexists; reflexivity.
Defined.

(** ** get_page_links: the depth bound *)

(** X12: the depth check is [max_depth == 0] only.  On a site whose pages
    all link to themselves, a crawl with a depth between 1 and the number
    of frames the interpreter grants returns the one link, and a crawl
    with a negative depth never reaches 0: it recurses until the
    interpreter raises [RecursionError], however many frames it grants. *)
Theorem get_page_links_negative_depth_unbounded :
  forall (http_get : nat -> string -> PyExn + Response)
         (ElementTree_fromstring : string -> option Element)
         (Url_domain : string -> string)
         (url : string) (page : Response) (root link : Element),
    (forall n, http_get n url = inr page) ->
    ~ http_error page ->
    ElementTree_fromstring (text page) = Some root ->
    findall_a root = [link] ->
    Element_get link "href" = Some url ->
    kept_link Url_domain (Url_domain url) url = true ->
    forall (frames : nat) (max_depth : Z) (w : World),
      (max_depth < 0 ->
       fst (get_page_links http_get ElementTree_fromstring Url_domain
                           frames url max_depth w)
       = Raise RecursionError) /\
      (0 < max_depth < Z.of_nat frames ->
       fst (get_page_links http_get ElementTree_fromstring Url_domain
                           frames url max_depth w)
       = Ok [url]).
Proof.
  intros http_get parse Url_domain url page root link Hget Hok Hparse Hlinks
         Hhref Hkept.
  unfold kept_link in Hkept. apply andb_true_iff in Hkept.
  destruct Hkept as [Hprefix Hdom].
  assert (Hstep : forall frames max_depth w, max_depth <> 0 ->
            exists w1,
              fst (get_page_links http_get parse Url_domain (S frames) url
                                  max_depth w)
              = match fst (get_page_links http_get parse Url_domain frames
                                          url (max_depth - 1) w1) with
                | Ok found => Ok (ordered_uniq (([] ++ [url]) ++ found))
                | Raise e => Raise e
                end).
  { intros frames max_depth w Hd. cbn [get_page_links].
    apply Z.eqb_neq in Hd. rewrite Hd.
    rewrite bind_eq, (fetch_page_ok http_get _ url page) by auto.
    rewrite bind_eq, (parse_page_ok parse _ _ root) by assumption.
    rewrite bind_eq. cbn [emit]. rewrite Hlinks.
    rewrite !bind_eq, for_fold_cons.
    unfold visit_link at 1. rewrite Hhref, Hprefix, Hdom. cbn [negb].
    rewrite !bind_eq.
    match goal with
    | |- context [get_page_links http_get parse Url_domain frames url
                                 (max_depth - 1) ?w0] =>
        exists w0;
        destruct (get_page_links http_get parse Url_domain frames url
                                 (max_depth - 1) w0) as [[found|e] w2]
    end; reflexivity. }
  induction frames as [|frames IH]; intros max_depth w; split.
  - reflexivity.
  - lia.
  - intros Hneg. destruct (Hstep frames max_depth w ltac:(lia)) as [w1 ->].
    rewrite (proj1 (IH (max_depth - 1) w1)) by lia. reflexivity.
  - intros Hpos. destruct (Hstep frames max_depth w ltac:(lia)) as [w1 ->].
    destruct (decide (max_depth = 1)) as [->|Hne].
    + destruct frames as [|frames']; [lia|]. reflexivity.
    + rewrite (proj2 (IH (max_depth - 1) w1)) by lia.
      f_equal. unfold ordered_uniq. cbn [fold_left app].
      rewrite (bool_decide_eq_false_2 (url ∈ [])) by apply not_elem_of_nil.
      cbn [app].
      rewrite (bool_decide_eq_true_2 (url ∈ [url]))
        by apply list_elem_of_here.
      reflexivity.
Qed.

Lemma get_page_links_negative_depth_unbounded_witness :
  fst (get_page_links loop_http_get loop_fromstring example_domain 1000
                      "http://example.com/" (-1) world0)
  = Raise RecursionError /\
  fst (get_page_links loop_http_get loop_fromstring example_domain 1000
                      "http://example.com/" 3 world0)
  = Ok ["http://example.com/"].
Proof.
  pose proof (get_page_links_negative_depth_unbounded
                loop_http_get loop_fromstring example_domain
                "http://example.com/" (mkResponse 200 "loop") loop_page
                (mkElement "a" {["href" := "http://example.com/"]} []))
    as Hthm.
  split; apply Hthm;
    first [reflexivity | unfold http_error; cbn; lia | lia].
Defined.

(** ** get_har_resources: failing captures *)

(** X13: an exception of the primary capture ends the call after that one
    capture, whatever the option; with [extract_critical_requests], an
    exception of the comparison capture ends the call too, although the
    same call without the option returns the resources of the primary
    capture. *)
Theorem get_har_resources_capture_errors :
  forall (har_entries_to_resources : list HarEntry.t -> list Resource.t)
         (replay_capture : nat -> string -> bool -> PyExn + Har.t)
         (website : string) (w : World) (e : PyExn),
    (replay_capture (captures w) website false = inl e ->
     forall extract_critical_requests,
       get_har_resources har_entries_to_resources replay_capture website
                         extract_critical_requests w
       = (Raise e,
          mkWorld (log w) (stdout w) (fetched w) (S (captures w)))) /\
    (forall har,
        replay_capture (captures w) website false = inr har ->
        replay_capture (S (captures w)) website true = inl e ->
        get_har_resources har_entries_to_resources replay_capture website
                          true w
        = (Raise e,
           mkWorld (log w) (stdout w) (fetched w) (S (S (captures w)))) /\
        fst (get_har_resources har_entries_to_resources replay_capture
                               website false w)
        = Ok (har_entries_to_resources (Har.entries (Har.log har)))).
Proof.
  intros conv replay_capture website w e. split.
  - intros Hhar flag. unfold get_har_resources.
    rewrite bind_eq. unfold capture_har_in_replay_server at 1.
    rewrite Hhar. reflexivity.
  - intros har Hhar Hhar2. unfold get_har_resources. split.
    + rewrite bind_eq. unfold capture_har_in_replay_server at 1.
      rewrite Hhar. cbn [negb]. rewrite bind_eq.
      unfold capture_har_in_replay_server at 1. cbn [captures].
      rewrite Hhar2. reflexivity.
    + rewrite bind_eq. unfold capture_har_in_replay_server at 1.
      rewrite Hhar. reflexivity.
Qed.

Lemma get_har_resources_capture_errors_witness :
  get_har_resources simple_resources comparison_fails "http://example.com/"
                    true world0
  = (Raise (OtherException "TimeoutError"), mkWorld [] [] [] 2) /\
  fst (get_har_resources simple_resources comparison_fails
                         "http://example.com/" false world0)
  = Ok (simple_resources [example_entry false]).
Proof.
  apply (proj2 (get_har_resources_capture_errors simple_resources
                  comparison_fails "http://example.com/" world0
                  (OtherException "TimeoutError"))
               (Har.mk (Har.mkLogT [example_entry false])));
    reflexivity.
Defined.
